(** * RyobiGDOApi: a shallow embedding of src/RyobiGDOApi.ts

    The client logs in to the vendor cloud, resolves a device's module and
    port identifiers from a nested status document and sends door commands
    over a short-lived WebSocket whose completion is observed through a
    ping/pong round trip.

    The embedding follows the TypeScript source function by function.
    JavaScript values are modelled dynamically (the code probes untyped JSON
    with optional chaining and truthiness tests); the asynchronous methods
    run in a state-and-exception monad over a [World] that holds the shared
    session, the device object being mutated, the logger output, the clock
    and the scripted behaviour of the network. *)

From Stdlib Require Import ZArith Ascii String List Bool Lia.
From stdpp Require Import base option list strings pretty gmap.

#[local] Set Warnings "-register-all".
Local Open Scope string_scope.
Local Open Scope Z_scope.
Local Open Scope list_scope.

(** ** JavaScript values *)

Module JS.

(** A JavaScript number as this program meets it.  [Int z] is an
    integer-valued double in the safe range (both zeros are [Int 0]);
    every other double (fractions, magnitudes from 2^53 on, NaN and the
    infinities) is [Other r], identified by its [Number::toString]
    rendering [r]. *)
Inductive number : Type :=
| Int (z : Z)
| Other (repr : string).

Inductive value : Type :=
| Undefined
| Null
| Bool (b : bool)
| Num (n : number)
| Str (s : string)
| Arr (items : list value)
| Obj (props : list (string * value))
| Builtin.
(** [Obj] lists the own properties in enumeration order, one per key;
    the values of the properties are data, as [JSON.parse] and the object
    literals of this program make them (no function among them).
    [Builtin] is the prototype method [at] that a property read on an
    array or a string yields. *)

Definition number_eqb (a b : number) : bool :=
  match a, b with
  | Int x, Int y => Z.eqb x y
  | Other r, Other q => String.eqb r q && negb (String.eqb r "NaN")
  | _, _ => false
  end.

Definition number_truthy (n : number) : bool :=
  match n with
  | Int z => negb (Z.eqb z 0)
  | Other r => negb (String.eqb r "NaN")
  end.

Definition number_to_string (n : number) : string :=
  match n with
  | Int z => pretty z
  | Other r => r
  end.

(** ToBoolean: the test behind [!x], [x && y] and [if (x)]. *)
Definition truthy (v : value) : bool :=
  match v with
  | Undefined | Null => false
  | Bool b => b
  | Num n => number_truthy n
  | Str s => negb (String.eqb s "")
  | Arr _ | Obj _ | Builtin => true
  end.

(** [x ?? d] *)
Definition nullish (v : value) : bool :=
  match v with
  | Undefined | Null => true
  | _ => false
  end.

Definition coalesce (v d : value) : value := if nullish v then d else v.

Definition is_string (v : value) : bool :=
  match v with Str _ => true | _ => false end.

Definition is_number (v : value) : bool :=
  match v with Num _ => true | _ => false end.

Definition is_array (v : value) : bool :=
  match v with Arr _ => true | _ => false end.

(** [x === y].  Arrays and objects compare by identity; the operands this
    program compares never share one (one side comes out of a fresh
    [JSON.parse]). *)
Definition strict_eq (a b : value) : bool :=
  match a, b with
  | Undefined, Undefined => true
  | Null, Null => true
  | Bool x, Bool y => Bool.eqb x y
  | Num x, Num y => number_eqb x y
  | Str x, Str y => String.eqb x y
  | Builtin, Builtin => true
  | _, _ => false
  end.

Fixpoint assoc (k : string) (ps : list (string * value)) : value :=
  match ps with
  | [] => Undefined
  | (k', v) :: ps' => if String.eqb k k' then v else assoc k ps'
  end.

(** Element [k] of a list when [k] is the canonical decimal of an index. *)
Fixpoint item {A} (undef : A) (l : list A) (i : nat) (k : string) : A :=
  match l with
  | [] => undef
  | x :: l' => if String.eqb k (pretty i) then x else item undef l' (S i) k
  end.

Fixpoint chars (s : string) : list value :=
  match s with
  | EmptyString => []
  | String c s' => Str (String c EmptyString) :: chars s'
  end.

(** [v?.k] and [v?.[k]]: the property read, [undefined] on a nullish
    receiver.  Covers the property names this program reads; of the
    prototype methods only [at] is among them. *)
Definition prop (v : value) (k : string) : value :=
  match v with
  | Undefined | Null => Undefined
  | Bool _ | Num _ => Undefined
  | Str s =>
      if String.eqb k "length" then Num (Int (Z.of_nat (String.length s)))
      else if String.eqb k "at" then Builtin
      else item Undefined (chars s) 0 k
  | Arr l =>
      if String.eqb k "length" then Num (Int (Z.of_nat (List.length l)))
      else if String.eqb k "at" then Builtin
      else item Undefined l 0 k
  | Obj ps => assoc k ps
  | Builtin =>
      if String.eqb k "length" then Num (Int 1)
      else if String.eqb k "name" then Str "at"
      else Undefined
  end.

Fixpoint join (sep : string) (l : list string) : string :=
  match l with
  | [] => ""
  | [x] => x
  | x :: l' => x +:+ sep +:+ join sep l'
  end.

(** An object has an own property of this name. *)
Definition has_own (k : string) (ps : list (string * value)) : bool :=
  existsb (fun p => String.eqb k (fst p)) ps.

(** ToString, as string concatenation and [RegExp.prototype.test] apply
    it; [None] when the conversion throws its TypeError.  An object is
    converted by the methods [toString] and [valueOf] it has or inherits:
    the inherited ones give [[object Object]], and an own property named
    [toString], which holds data and cannot be called, leaves the object
    without a primitive value (an own [valueOf] does not: the inherited
    [toString] still answers).  An array joins its elements with commas, a
    nullish element rendering as the empty string, and throws when the
    conversion of an element does. *)
Fixpoint to_string (v : value) : option string :=
  match v with
  | Undefined => Some "undefined"
  | Null => Some "null"
  | Bool true => Some "true"
  | Bool false => Some "false"
  | Num n => Some (number_to_string n)
  | Str s => Some s
  | Arr l =>
      join "," <$> mapM (fun x => if nullish x then Some "" else to_string x) l
  | Obj ps => if has_own "toString" ps then None else Some "[object Object]"
  | Builtin => Some "function at() { [native code] }"
  end.

(** [Object.values(v)] for a truthy [v]. *)
Definition object_values (v : value) : list value :=
  match v with
  | Obj ps => List.map snd ps
  | Arr l => l
  | Str s => chars s
  | _ => []
  end.

(** The elements of an array. *)
Definition elements (v : value) : list value :=
  match v with
  | Arr l => l
  | _ => []
  end.

End JS.
Import JS.


(** ** The regular expressions of the source

    The three regex literals of the file use only single characters and
    greedy repetitions of a character class, so a pattern is a sequence of
    atoms.  Matching is the backtracking semantics of ECMAScript: a greedy
    repetition takes as many characters as it can and gives them back one
    by one while the rest of the pattern fails; [String.prototype.match]
    and [RegExp.prototype.test] return the leftmost match.  Strings are
    sequences of code units below 256. *)

Module Regex.

Inductive atom : Type :=
| One (cls : ascii -> bool)
| Many0 (cls : ascii -> bool)
| Many1 (cls : ascii -> bool).

(** A greedy repetition of [cls] followed by the continuation [k]; [need]
    asks for one character at least.  Returns what the repetition took and
    what the continuation returned. *)
Fixpoint many {R} (cls : ascii -> bool) (k : list ascii -> option R)
    (need : bool) (s : list ascii) : option (list ascii * R) :=
  let stop := if need then None else pair [] <$> k s in
  match s with
  | c :: s' =>
      if cls c then
        match many cls k false s' with
        | Some (w, r) => Some (c :: w, r)
        | None => stop
        end
      else stop
  | [] => stop
  end.

(** A match of the whole pattern at the head of [s]: the text each atom
    took, in order. *)
Fixpoint match_here (p : list atom) (s : list ascii) : option (list (list ascii)) :=
  match p with
  | [] => Some []
  | One cls :: p' =>
      match s with
      | c :: s' => if cls c then cons [c] <$> match_here p' s' else None
      | [] => None
      end
  | Many0 cls :: p' => (fun wr => fst wr :: snd wr) <$> many cls (match_here p') false s
  | Many1 cls :: p' => (fun wr => fst wr :: snd wr) <$> many cls (match_here p') true s
  end.

(** The leftmost match. *)
Fixpoint search (p : list atom) (s : list ascii) : option (list (list ascii)) :=
  match match_here p s with
  | Some r => Some r
  | None =>
      match s with
      | [] => None
      | _ :: s' => search p s'
      end
  end.

(** The text atom number [i] of the pattern took. *)
Definition taken (i : nat) (m : list (list ascii)) : string :=
  string_of_list_ascii (nth i m []).

Definition only (c : ascii) : ascii -> bool := Ascii.eqb c.
Definition except (c : ascii) : ascii -> bool := fun x => negb (Ascii.eqb c x).

(** A lower-case letter under the [i] flag. *)
Definition ci (lower : ascii) : ascii -> bool :=
  fun x => Ascii.eqb x lower
        || Ascii.eqb x (ascii_of_nat (nat_of_ascii lower - 32)).

(** [\s] on code units below 256: tab, line feed, vertical tab, form feed,
    carriage return, space and the no-break space. *)
Definition space (x : ascii) : bool :=
  let n := nat_of_ascii x in
  (Nat.leb 9 n && Nat.leb n 13) || Nat.eqb n 32 || Nat.eqb n 160.

(** [/expires\s*=\s*([^;]+)/i]; the group is atom 10. *)
Definition expires_re : list atom :=
  [One (ci "e"); One (ci "x"); One (ci "p"); One (ci "i"); One (ci "r");
   One (ci "e"); One (ci "s"); Many0 space; One (only "="); Many0 space;
   Many1 (except ";")].

(** [/([^=]+)=([^;]+)/]; the groups are atoms 0 and 2. *)
Definition pair_re : list atom :=
  [Many1 (except "="); One (only "="); Many1 (except ";")].

(** [/hub/i] *)
Definition hub_re : list atom := [One (ci "h"); One (ci "u"); One (ci "b")].

(** [cookie.match(/expires\s*=\s*([^;]+)/i)], giving [expires[1]]. *)
Definition match_expires (cookie : string) : option string :=
  taken 10 <$> search expires_re (list_ascii_of_string cookie).

(** [cookie.match(/([^=]+)=([^;]+)/)], giving [(match[1], match[2])]. *)
Definition match_pair (cookie : string) : option (string * string) :=
  (fun m => (taken 0 m, taken 2 m)) <$> search pair_re (list_ascii_of_string cookie).

(** [/hub/i.test(s)] *)
Definition test_hub (s : string) : bool :=
  bool_decide (is_Some (search hub_re (list_ascii_of_string s))).

End Regex.

(** ** Data model *)

(** A [Date]: its time value in milliseconds, or an Invalid Date. *)
Inductive date : Type :=
| Valid (ms : Z)
| InvalidDate.

(** [a > b] on dates compares the time values; with an Invalid Date (NaN)
    on either side it is false. *)
Definition date_gt (a b : date) : bool :=
  match a, b with
  | Valid x, Valid y => Z.ltb y x
  | _, _ => false
  end.

(** Modelled from the spec: the class [RyobiGDOSession], declared in
    RyobiGDOSession.ts, of which this file reads and writes three fields:
    the cookie jar (a mapping from cookie name to value, last write wins),
    the cached API key ([Undefined] until one is cached) and the expiry of
    the cookies. *)
Record Session : Type := mkSession {
  cookies : gmap string string;
  apiKey : value;
  cookieExpires : option date;
}.

(** Modelled from the spec: the class [RyobiGDOCredentials], declared in
    RyobiGDOCredentials.ts, immutable and supplied at construction. *)
Record Credentials : Type := mkCredentials {
  email : string;
  password : string;
}.

(** Modelled from the spec: the interface [RyobiGDODevice], declared in
    RyobiGDODevice.ts, taken as [Partial<RyobiGDODevice>]: every field may
    be [Undefined]. *)
Record Device : Type := mkDevice {
  description : value;
  name : value;
  id : value;
  model : value;
  type : value;
  moduleId : value;
  portId : value;
  state : value;
  stateAsOf : value;
}.

Inductive DoorState : Type := CLOSED | OPEN | CLOSING | OPENING.

(** What the methods throw and what the command promise is rejected with. *)
Inductive error : Type :=
| Unauthorized (result : string)
  (** [new Error('Unauthorized -- check your ryobi username/password: ' + result.result)],
      with [result.result] as the concatenation renders it, when it does *)
| InvalidResponse (values : value)
  (** [new Error('Invalid response: ' + JSON.stringify(values, null, 2))] *)
| ModuleIdUndefined  (** [new Error('doorModuleId is undefined')] *)
| PortIdUndefined    (** [new Error('doorPortId is undefined')] *)
| ClosedPrematurely  (** the reason ['WebSocket closed prematurely'] *)
| WebSocketError (x : string)  (** the payload of the socket's error event *)
| FetchError (x : string)      (** the rejection of [fetch] *)
| SyntaxError                  (** [JSON.parse] on a malformed text *)
| TypeError (reading : string) (** a property read on [null] *)
| CannotConvert
  (** the TypeError of a string conversion: 'Cannot convert object to
      primitive value' *).

(** The logger. *)
Inductive level : Type := DEBUG | ERROR.

Inductive payload : Type :=
| NoPayload
| OfValue (v : value)
| OfError (x : error).

Record entry : Type := mkEntry {
  lvl : level;
  text : string;
  extra : payload;
}.

(** HTTP.  A request keeps the url, what [init] asked for and the cookie
    jar its [cookie] header was written from. *)
Inductive request_init : Type :=
| Get
| PostLogin (username password : string).
  (** method post, content type form-urlencoded, body
      [username=<encodeURIComponent>&password=<encodeURIComponent>] *)

Record request : Type := mkRequest {
  url : string;
  init : request_init;
  cookie : gmap string string;
}.

(** What [fetch] comes back with: a response (the time it took, the
    [set-cookie] headers, the body text and what [JSON.parse] makes of the
    text, [None] when it throws) or a rejection. *)
Inductive reply : Type :=
| Response (elapsed : N) (set_cookie : list string) (body : string) (json : option value)
| Rejection (x : string).

(** WebSocket.  What the connection emits and what is written to it;
    [Send frame] is [ws.send(JSON.stringify(frame))], kept as the value
    that is serialized. *)
Inductive ws_event : Type :=
| Open
| Message (data : string) (parsed : option value)
| Pong
| Close
| Error (x : string).

Inductive ws_action : Type :=
| Send (frame : value)
| Ping
| Terminate.

(** The command promise. *)
Inductive promise : Type :=
| Pending
| Resolved
| Rejected (reason : error).

(** [resolve()] and [reject(r)] settle a pending promise and do nothing to
    a settled one. *)
Definition settle (p : promise) (to : promise) : promise :=
  match p with
  | Pending => to
  | _ => p
  end.

(** The state the listeners of one [sendWebsocketCommand] invocation
    share: the [complete] flag and the promise. *)
Record channel : Type := mkChannel {
  complete : bool;
  outcome_of : promise;
}.

(** The world a method runs in: the objects it shares with its caller
    ([session], [credentials], the [device] argument, the logger's output)
    and the environment (the clock, the replies of the server to the
    successive requests, the events of the successive connections), with
    the requests performed and the socket writes, oldest first. *)
Record World : Type := mkWorld {
  session : Session;
  credentials : Credentials;
  device : Device;
  log : list entry;
  now : Z;
  net : nat -> reply;
  requests : list request;
  sockets : list (list ws_event);
  wire : list ws_action;
}.

Definition with_session (s : Session) (w : World) : World :=
  mkWorld s (credentials w) (device w) (log w) (now w) (net w) (requests w)
          (sockets w) (wire w).

Definition with_device (d : Device) (w : World) : World :=
  mkWorld (session w) (credentials w) d (log w) (now w) (net w) (requests w)
          (sockets w) (wire w).

Definition logged (e : entry) (w : World) : World :=
  mkWorld (session w) (credentials w) (device w) (log w ++ [e]) (now w) (net w)
          (requests w) (sockets w) (wire w).

Definition written (a : ws_action) (w : World) : World :=
  mkWorld (session w) (credentials w) (device w) (log w) (now w) (net w)
          (requests w) (sockets w) (wire w ++ [a]).

(** ** The monad of the asynchronous methods

    A method returns, throws, or never resumes (it awaits a promise that
    does not settle); the world is threaded through either way, since what
    a method did to the shared objects before it threw stays done. *)

Inductive outcome (A : Type) : Type :=
| Return (a : A)
| Throw (x : error)
| Never.
Arguments Return {A} a.
Arguments Throw {A} x.
Arguments Never {A}.

Definition M (A : Type) : Type := World -> outcome A * World.

Definition ret {A} (a : A) : M A := fun w => (Return a, w).

Definition throw {A} (x : error) : M A := fun w => (Throw x, w).

Definition bind {A B} (m : M A) (k : A -> M B) : M B :=
  fun w =>
    match m w with
    | (Return a, w') => k a w'
    | (Throw x, w') => (Throw x, w')
    | (Never, w') => (Never, w')
    end.

(** [try { body } catch (x) { handler }] *)
Definition try_catch {A} (body : M A) (handler : error -> M A) : M A :=
  fun w =>
    match body w with
    | (Throw x, w') => handler x w'
    | r => r
    end.

Definition get {A} (f : World -> A) : M A := fun w => (Return (f w), w).

Definition update (f : World -> World) : M unit := fun w => (Return tt, f w).

(** The methods are written with stdpp's monad notations:
    [x ← m; k] awaits (or just runs) [m] and goes on with [k]. *)
#[global] Instance M_ret : MRet M := @ret.
#[global] Instance M_bind : MBind M := fun A B k m => bind m k.

Definition logger_debug (msg : string) : M unit :=
  update (logged (mkEntry DEBUG msg NoPayload)).

Definition logger_error (msg : string) : M unit :=
  update (logged (mkEntry ERROR msg NoPayload)).

(** [v.k] without optional chaining: a TypeError on a nullish receiver. *)
Definition read (v : value) (k : string) : M value :=
  if nullish v then throw (TypeError k) else ret (prop v k).

(** The conversion of [v] to a string in ['...' + v] and in
    [/hub/i.test(v)]: a TypeError when [v] has no primitive value. *)
Definition ToString (v : value) : M string :=
  match to_string v with
  | Some s => ret s
  | None => throw CannotConvert
  end.

(** ** A sample deployment

    One account, one hub and one door opener, as the scenarios of the
    specification describe them; the examples at the end of the file run
    the methods on these worlds. *)

Module Scenario.

(** A date parser that knows the one date the sample server sends. *)
Definition Date_parse (s : string) : date :=
  if String.eqb s "Thu, 01 Jan 2026 00:00:00 GMT" then Valid 1767225600000
  else InvalidDate.

Definition account : Credentials := mkCredentials "owner@example.com" "secret".

Definition fresh : Session := mkSession ∅ Undefined None.

(** The caller knows the device by name only. *)
Definition named : Device :=
  mkDevice Undefined (Str "MyGDO") Undefined Undefined Undefined
           Undefined Undefined Undefined Undefined.

(** The caller holds a device resolved earlier. *)
Definition resolved : Device :=
  mkDevice (Str "") (Str "MyGDO") (Str "abc123") (Str "wgd1234") (Str "gdo")
           (Num (Int 2)) (Num (Int 5)) (Num (Int 1)) (Num (Int 1766999000000)).

Definition login_ok : reply :=
  Response 120
    ["sid=s3cr3t; Path=/; Expires=Thu, 01 Jan 2026 00:00:00 GMT; HttpOnly"]
    "login"
    (Some (Obj [("result", Obj [("auth", Obj [("apiKey", Str "KEY1")])])])).

Definition login_invalid : reply :=
  Response 120 [] "login" (Some (Obj [("result", Str "invalid")])).

Definition login_empty_key : reply :=
  Response 120 [] "login"
    (Some (Obj [("result", Obj [("auth", Obj [("apiKey", Str "")])])])).

Definition device_list : reply :=
  Response 80 [] "devices"
    (Some (Obj [("result", Arr [
       Obj [("varName", Str "hub001");
            ("metaData", Obj [("name", Str "Hub")]);
            ("deviceTypeIds", Arr [Str "wgd1234hub"])];
       Obj [("varName", Str "abc123");
            ("metaData", Obj [("name", Str "MyGDO"); ("description", Null)]);
            ("deviceTypeIds", Arr [Str "wgd1234"])]])])).

Definition module (profile : string) (port moduleNo : Z) (door : list (string * value))
    : value :=
  Obj [("at", Obj ([("moduleProfiles", Obj [("value", Arr [Str profile])]);
                    ("portId", Obj [("value", Num (Int port))]);
                    ("moduleId", Obj [("value", Num (Int moduleNo))])] ++ door))].

Definition status (modules : list (string * value)) : reply :=
  Response 60 [] "status"
    (Some (Obj [("result", Arr [Obj [("deviceTypeMap", Obj modules)]])])).

(** The door opener on port 5 of module 2, open. *)
Definition status_open : reply :=
  status [("wifi_1", module "wifi_main" 1 7 []);
          ("garageDoor_5",
           module "garageDoor_main" 5 2 [("doorState", Obj [("value", Num (Int 1))])])].

(** A device without a door opener. *)
Definition status_no_door : reply :=
  status [("wifi_1", module "wifi_main" 1 7 [])].

(** A door opener whose module identifier is the number 0. *)
Definition status_module_zero : reply :=
  status [("garageDoor_5",
           module "garageDoor_main" 5 0 [("doorState", Obj [("value", Num (Int 0))])])].

(** A status document whose first result holds no [deviceTypeMap]. *)
Definition status_no_map : reply :=
  Response 60 [] "status" (Some (Obj [("result", Arr [Obj []])])).

Definition answers (replies : list reply) (n : nat) : reply :=
  nth n replies (Rejection "ECONNREFUSED").

Definition world (d : Device) (replies : list reply) (connection : list ws_event)
    : World :=
  mkWorld fresh account d [] 1767000000000 (answers replies) [] [connection] [].

Definition authorization : ws_event :=
  Message "authorized" (Some (Obj [("result", Obj [("authorized", Bool true)])])).

Definition greeting : ws_event :=
  Message "hello" (Some (Obj [("method", Str "hello")])).

Definition open_command : value := Obj [("doorCommand", Num (Int 1))].

End Scenario.

(** ** The methods of [RyobiGDOApi] *)

Definition apikeyURL : string := "https://tti.tiwiconnect.com/api/login".
Definition deviceURL : string := "https://tti.tiwiconnect.com/api/devices".
Definition websocketURL : string := "wss://tti.tiwiconnect.com/api/wsrpc".

(** [doorStateMap]: a [Map] from number to door state.  [Map.prototype.get]
    compares keys by SameValueZero, which on the numeric keys here is
    [number_eqb]; a key that is not a number finds nothing. *)
Definition doorStateMap : list (number * DoorState) :=
  [(Int 0, CLOSED); (Int 1, OPEN); (Int 2, CLOSING); (Int 3, OPENING)].

Definition map_get (m : list (number * DoorState)) (k : value) : option DoorState :=
  match k with
  | Num n => snd <$> List.find (fun kv => number_eqb (fst kv) n) m
  | _ => None
  end.

(** [toNumber] *)
Definition toNumber (v : value) : value :=
  if is_number v then v else Undefined.

Section Api.

(** [new Date(s)] on a date string: the parser of the JavaScript runtime. *)
Variable Date_parse : string -> date.

(** [updateSessionFromCookies]: one round of the loop, then the loop. *)
Definition updateSessionFromCookie (s : Session) (cookie : string) : Session :=
  let s1 :=
    match Regex.match_expires cookie with
    | Some e => mkSession (cookies s) (apiKey s) (Some (Date_parse e))
    | None => s
    end in
  match Regex.match_pair cookie with
  | Some (k, v) => mkSession (<[k:=v]> (cookies s1)) (apiKey s1) (cookieExpires s1)
  | None => s1
  end.

Definition updateSessionFromCookies (s : Session) (cookies : list string) : Session :=
  fold_left updateSessionFromCookie cookies s.

(** [fetch]: the request is recorded and answered by the next reply of the
    server, while the clock advances. *)
Definition fetch (rq : request) : M (list string * string * option value) :=
  fun w =>
    let w' := mkWorld (session w) (credentials w) (device w) (log w) (now w)
                      (net w) (requests w ++ [rq]) (sockets w) (wire w) in
    match net w (List.length (requests w)) with
    | Response dt cs body js =>
        (Return (cs, body, js),
         mkWorld (session w') (credentials w') (device w') (log w')
                 (now w' + Z.of_N dt) (net w') (requests w') (sockets w') (wire w'))
    | Rejection x => (Throw (FetchError x), w')
    end.

(** [request]: returns the response, of which the callers read the text. *)
Definition request_ (url : string) (init : request_init) : M (string * option value) :=
  jar ← get (fun w => cookies (session w));
  logger_debug ("GET " +:+ url);;
  response ← fetch (mkRequest url init jar);
  let '(set_cookie, body, js) := response in
  update (fun w => with_session (updateSessionFromCookies (session w) set_cookie) w);;
  ret (body, js).

(** [getJson] *)
Definition getJson (url : string) (init : request_init) : M value :=
  response ← request_ url init;
  logger_debug (fst response);;
  match snd response with
  | Some v => ret v
  | None => throw SyntaxError
  end.

(** The test that opens [getApiKey]:
    [session.apiKey && session.cookieExpires && session.cookieExpires > new Date()]. *)
Definition cached (s : Session) (today : date) : bool :=
  truthy (apiKey s) &&
  match cookieExpires s with
  | Some expires => date_gt expires today
  | None => false
  end.

(** [getApiKey] *)
Definition getApiKey : M value :=
  logger_debug "getApiKey";;
  s ← get session;
  today ← get (fun w => Valid (now w));
  if cached s today then ret (apiKey s)
  else
    c ← get credentials;
    result ← getJson apikeyURL (PostLogin (email c) (password c));
    result_result ← read result "result";
    if is_string result_result
       || negb (truthy (prop (prop result_result "auth") "apiKey"))
    then text ← ToString result_result; throw (Unauthorized text)
    else
      let key := prop (prop result_result "auth") "apiKey" in
      update (fun w => with_session
                (mkSession (cookies (session w)) key (cookieExpires (session w))) w);;
      get (fun w => apiKey (session w)).

(** [getDevicesRaw] *)
Definition getDevicesRaw : M (list value) :=
  result ← getJson deviceURL Get;
  result_result ← read result "result";
  if is_string result_result || negb (is_array result_result)
  then text ← ToString result_result; throw (Unauthorized text)
  else ret (elements result_result).

(** The callback of [devices.map] in [getDevices].  [device.metaData] is a
    plain property read, which throws on an entry that is [null];
    [/hub/i.test] converts its argument to a string. *)
Definition listed (entry : value) : M Device :=
  metaData ← read entry "metaData";
  let first := coalesce (prop (prop entry "deviceTypeIds") "0") (Str "") in
  text ← ToString first;
  ret {| description := coalesce (prop metaData "description") (Str "");
         name := coalesce (prop metaData "name") (Str "");
         id := coalesce (prop entry "varName") (Str "");
         model := first;
         type := if Regex.test_hub text then Str "hub" else Str "gdo";
         moduleId := Undefined;
         portId := Undefined;
         state := Undefined;
         stateAsOf := Undefined |}.

(** [devices.map(...)]: the entries in order, up to the first one on which
    the callback throws. *)
Fixpoint map_listed (entries : list value) : M (list Device) :=
  match entries with
  | [] => ret []
  | e :: es => d ← listed e; ds ← map_listed es; ret (d :: ds)
  end.

(** [getDevices] *)
Definition getDevices : M (list Device) :=
  getApiKey;;
  devices ← getDevicesRaw;
  map_listed devices.

(** [Object.assign(device, source)]: the own properties of a listed device
    are the five that [getDevices] writes; an [undefined] source is
    skipped. *)
Definition Object_assign (target : Device) (source : option Device) : Device :=
  match source with
  | Some s =>
      {| description := description s; name := name s; id := id s;
         model := model s; type := type s;
         moduleId := moduleId target; portId := portId target;
         state := state target; stateAsOf := stateAsOf target |}
  | None => target
  end.

(** [getDeviceId] *)
Definition getDeviceId : M unit :=
  d ← get device;
  if truthy (id d) then ret tt
  else
    logger_debug "getDeviceId";;
    devices ← getDevices;
    d ← get device;
    (if negb (truthy (id d)) && truthy (name d)
     then update (with_device
            (Object_assign d (List.find (fun x => strict_eq (name x) (name d)) devices)))
     else update (with_device
            (Object_assign d (List.find (fun x => negb (strict_eq (type x) (Str "hub"))) devices))));;
    d ← get device;
    text ← ToString (id d);
    logger_debug ("device.id: " +:+ text).

(** The predicate of [Object.values(map).find] in [updateDevice]. *)
Definition is_garageDoorModule (m : value) : bool :=
  let profiles := prop (prop (prop m "at") "moduleProfiles") "value" in
  is_array profiles &&
  existsb (fun v => match v with
                    | Str s => String.prefix "garageDoor_" s
                    | _ => false
                    end)
          (elements profiles).

(** [updateDevice], from [const queryUri] on: the status query and what
    it writes to the device.  [device.portId] is a number or [undefined]
    when the key [garageDoor_<portId>] is built from it, so that this
    conversion does not throw and the four assignments run together. *)
Definition queryDevice : M unit :=
  d ← get device;
  text ← ToString (id d);
  let queryUri := deviceURL +:+ "/" +:+ text in
  getApiKey;;
  values ← getJson queryUri Get;
  if negb (truthy (prop (prop values "result") "length"))
  then throw (InvalidResponse values)
  else
    let map := prop (prop (prop values "result") "0") "deviceTypeMap" in
    if negb (truthy map)
    then logger_error "deviceTypeMap not found"
    else
      let garageDoorModule :=
        default Undefined (List.find is_garageDoorModule (object_values map)) in
      let port := toNumber (prop (prop (prop garageDoorModule "at") "portId") "value") in
      let module := toNumber (prop (prop (prop garageDoorModule "at") "moduleId") "value") in
      key ← ToString port;
      let door :=
        toNumber (prop (prop (prop (prop map ("garageDoor_" +:+ key))
                                   "at") "doorState") "value") in
      update (fun w =>
        let d := device w in
        with_device
          {| description := description d; name := name d; id := id d;
             model := model d; type := type d;
             moduleId := module; portId := port; state := door;
             stateAsOf := Num (Int (now w)) |} w).

(** [updateDevice] *)
Definition updateDevice : M unit :=
  d ← get device;
  (if negb (truthy (id d)) then getDeviceId else ret tt);;
  queryDevice.

(** [getStatus] *)
Definition getStatus : M (option DoorState) :=
  logger_debug "Updating ryobi data";;
  updateDevice;;
  d ← get device;
  if strict_eq (state d) Undefined
  then logger_error "Unable to query door state";; ret None
  else ret (map_get doorStateMap (state d)).

(** *** The command channel *)

(** The frame of the open listener. *)
Definition login_frame (c : Credentials) (key : value) : value :=
  Obj [("jsonrpc", Str "2.0"); ("id", Num (Int 3));
       ("method", Str "srvWebSocketAuth");
       ("params", Obj [("varName", Str (email c)); ("apiKey", key)])].

(** The frame of the message listener. *)
Definition command_frame (d : Device) (message : value) : value :=
  Obj [("jsonrpc", Str "2.0"); ("method", Str "gdoModuleCommand");
       ("params", Obj [("msgType", Num (Int 16)); ("moduleType", moduleId d);
                       ("portId", portId d); ("moduleMsg", message);
                       ("topic", id d)])].

Definition ws_send (frame : value) : M unit := update (written (Send frame)).
Definition ws_ping : M unit := update (written Ping).
Definition ws_terminate : M unit := update (written Terminate).

(** The five listeners.  Each takes the state shared by the listeners and
    returns it; a [Throw] is an exception that escapes the listener. *)
Definition on_open (key : value) (ch : channel) : M channel :=
  c ← get credentials;
  logger_debug "sending api key";;
  ws_send (login_frame c key);;
  ret ch.

Definition on_message (message : value) (data : string) (parsed : option value)
    (ch : channel) : M channel :=
  logger_debug ("message received: " +:+ data);;
  returnObj ← match parsed with
               | Some v => ret v
               | None => throw SyntaxError
               end;
  result ← read returnObj "result";
  if negb (truthy (prop result "authorized")) then ret ch
  else
    d ← get device;
    let sendMessage := command_frame d message in
    update (logged (mkEntry DEBUG "sending websocket: " (OfValue sendMessage)));;
    ws_send sendMessage;;
    let ch := mkChannel true (outcome_of ch) in
    logger_debug "sending ping";;
    ws_ping;;
    ret ch.

Definition on_pong (ch : channel) : M channel :=
  logger_debug "pong; terminate";;
  ws_terminate;;
  ret (mkChannel (complete ch) (settle (outcome_of ch) Resolved)).

Definition on_close (ch : channel) : M channel :=
  logger_debug "closing";;
  if negb (complete ch)
  then
    logger_error "WebSocket closing before completed";;
    ret (mkChannel (complete ch) (settle (outcome_of ch) (Rejected ClosedPrematurely)))
  else ret ch.

Definition on_error (x : string) (ch : channel) : M channel :=
  update (logged (mkEntry ERROR "WebSocket error: " (OfError (WebSocketError x))));;
  ret (mkChannel (complete ch) (settle (outcome_of ch) (Rejected (WebSocketError x)))).

(** The dispatch of an event to its listener. *)
Definition emit (key message : value) (ev : ws_event) (ch : channel) : M channel :=
  match ev with
  | Open => on_open key ch
  | Message data parsed => on_message message data parsed ch
  | Pong => on_pong ch
  | Close => on_close ch
  | Error x => on_error x ch
  end.

(** [await promise]: the events of the connection are dispatched until the
    promise settles.  When the connection falls silent with the promise
    pending the method never resumes; so it does when an exception escapes
    a listener, which nothing here catches. *)
Fixpoint await_promise (key message : value) (evs : list ws_event) (ch : channel)
    : M unit :=
  match outcome_of ch with
  | Resolved => ret tt
  | Rejected reason => throw reason
  | Pending =>
      match evs with
      | [] => fun w => (Never, w)
      | ev :: evs' =>
          fun w =>
            match emit key message ev ch w with
            | (Return ch', w') => await_promise key message evs' ch' w'
            | (_, w') => (Never, w')
            end
      end
  end.

(** [new WebSocket(websocketURL)]: the next connection of the world, as the
    events it will emit. *)
Definition new_WebSocket : M (list ws_event) :=
  fun w =>
    (Return (hd [] (sockets w)),
     mkWorld (session w) (credentials w) (device w) (log w) (now w) (net w)
             (requests w) (tl (sockets w)) (wire w)).

(** The opening of [sendWebsocketCommand]: the status query made when an
    identifier is missing. *)
Definition resolve_addressing : M unit :=
  d ← get device;
  if negb (truthy (moduleId d)) || negb (truthy (portId d))
  then updateDevice
  else ret tt.

(** [sendWebsocketCommand] *)
Definition sendWebsocketCommand (message : value) : M unit :=
  resolve_addressing;;
  d ← get device;
  if negb (truthy (moduleId d)) then throw ModuleIdUndefined
  else if negb (truthy (portId d)) then throw PortIdUndefined
  else
    let ch := mkChannel false Pending in
    key ← getApiKey;
    evs ← new_WebSocket;
    await_promise key message evs ch;;
    logger_debug "command finished".

(** [openDoor] and [closeDoor] *)
Definition openDoor : M unit :=
  logger_debug "GARAGEDOOR openDoor";;
  try_catch
    (sendWebsocketCommand (Obj [("doorCommand", Num (Int 1))]))
    (fun x => update (logged (mkEntry ERROR "Error sending openDoor command: " (OfError x)))).

Definition closeDoor : M unit :=
  logger_debug "GARAGEDOOR closeDoor";;
  try_catch
    (sendWebsocketCommand (Obj [("doorCommand", Num (Int 0))]))
    (fun x => update (logged (mkEntry ERROR "Error sending closeDoor command: " (OfError x)))).

(** ** The vocabulary of the properties *)

(** What a list of [set-cookie] headers does to a jar and to an expiry. *)
Definition merged_jar (cs : list string) (jar : gmap string string) : gmap string string :=
  fold_left (fun m c => match Regex.match_pair c with
                        | Some (k, v) => <[k:=v]> m
                        | None => m
                        end) cs jar.

Definition merged_expiry (cs : list string) (e : option date) : option date :=
  fold_left (fun e c => match Regex.match_expires c with
                        | Some x => Some (Date_parse x)
                        | None => e
                        end) cs e.

(** The world at a later reading [t] of the clock. *)
Definition at_time (t : Z) (w : World) : World :=
  mkWorld (session w) (credentials w) (device w) (log w) t (net w) (requests w)
          (sockets w) (wire w).

(** The login request [getApiKey] issues from the world [w]. *)
Definition login_request (w : World) : request :=
  mkRequest apikeyURL
    (PostLogin (email (credentials w)) (password (credentials w)))
    (cookies (session w)).

(** A parsed message that carries the authorization:
    [returnObj.result?.authorized] is truthy. *)
Definition authorized (doc : value) : bool :=
  negb (nullish doc) && truthy (prop (prop doc "result") "authorized").

(** What a connection emits before the authorization: the open event and
    parsed messages that are not authorized. *)
Definition preliminary (ev : ws_event) : bool :=
  match ev with
  | Open => true
  | Message _ (Some doc) => negb (nullish doc) && negb (authorized doc)
  | _ => false
  end.

(** The document the server sent in answer to the last request made. *)
Definition last_document (w : World) : option value :=
  match net w (length (requests w) - 1) with
  | Response _ _ _ js => js
  | Rejection _ => None
  end.

(** The text contains [hub] in any mix of cases. *)
Definition mentions_hub (s : string) : Prop :=
  ∃ (before after : list ascii) (h u b : ascii),
    list_ascii_of_string s = before ++ h :: u :: b :: after
    ∧ (h = "h" ∨ h = "H")%char ∧ (u = "u" ∨ u = "U")%char ∧ (b = "b" ∨ b = "B")%char.

(** The [deviceTypeMap] that [updateDevice] looks for in a status document. *)
Definition deviceTypeMap_of (values : value) : value :=
  prop (prop (prop values "result") "0") "deviceTypeMap".

(** The fields of a device, and the fields that are kept from one device
    to another: those of the list that were set are still set. *)
Definition all_fields : list (Device → value) :=
  [description; name; id; model; type; moduleId; portId; state; stateAsOf].


Definition kept (fields : list (Device → value)) (d d' : Device) : Prop :=
  Forall (fun field => field d ≠ Undefined → field d' ≠ Undefined) fields.

(** *** Further vocabulary *)

(** What an atom of a pattern may take: one character of its class, any
    run of them, or a run of one at least. *)
Definition takes (a : Regex.atom) (piece : list ascii) : Prop :=
  match a with
  | Regex.One cls => ∃ c, piece = [c] ∧ cls c = true
  | Regex.Many0 cls => Forall (fun c => cls c = true) piece
  | Regex.Many1 cls => piece ≠ [] ∧ Forall (fun c => cls c = true) piece
  end.

(** The text is empty or goes on with the character [c]. *)
Definition ends_or_meets (c : ascii) (rest : string) : Prop :=
  rest = "" ∨ ∃ r, rest = String c r.

(** The set-cookie header carries no [name=value] pair for [k]. *)
Definition silent_on (k : string) (header : string) : Prop :=
  ∀ v, Regex.match_pair header ≠ Some (k, v).

(** The module [updateDevice] finds in a [deviceTypeMap]: the first value
    of the map that is a garage-door module, [undefined] when there is
    none. *)
Definition garageDoorModule_of (map : value) : value :=
  default Undefined (List.find is_garageDoorModule (object_values map)).

(** [m?.at?.[field]?.value] *)
Definition attribute (m : value) (field : string) : value :=
  prop (prop (prop m "at") field) "value".

(** An event that is no authorized message. *)
Definition unauthorizing (ev : ws_event) : bool :=
  match ev with
  | Message _ (Some doc) => negb (authorized doc)
  | _ => true
  end.

(** A close event, or one of the preliminaries. *)
Definition idle (ev : ws_event) : bool :=
  match ev with
  | Close => true
  | _ => preliminary ev
  end.

(** The part of the world the HTTP side of the client lives in. *)
Definition http_side (w : World) : Session * Device * list request * Z :=
  (session w, device w, requests w, now w).

(** The part of the world the WebSocket side of the client lives in. *)
Definition socket_side (w : World) : list (list ws_event) * list ws_action :=
  (sockets w, wire w).

(** What the refusal branch of [getApiKey] and of [getDevicesRaw] throws
    for a [result]: the 'Unauthorized' error that ends with [result] as a
    string, or the TypeError of that conversion. *)
Definition refusal (result : value) : error :=
  match to_string result with
  | Some text => Unauthorized text
  | None => CannotConvert
  end.

(** The first device type of a raw entry of the device list, or the empty
    string. *)
Definition first_type (entry : value) : value :=
  coalesce (prop (prop entry "deviceTypeIds") "0") (Str "").

(** The device that [getDevices] lists for a raw entry whose first device
    type reads [text]. *)
Definition listed_as (entry : value) (text : string) : Device :=
  {| description := coalesce (prop (prop entry "metaData") "description") (Str "");
     name := coalesce (prop (prop entry "metaData") "name") (Str "");
     id := coalesce (prop entry "varName") (Str "");
     model := first_type entry;
     type := if Regex.test_hub text then Str "hub" else Str "gdo";
     moduleId := Undefined;
     portId := Undefined;
     state := Undefined;
     stateAsOf := Undefined |}.

(** The raw entry [entry] is listed as the device [d]. *)
Definition lists (entry : value) (d : Device) : Prop :=
  nullish entry = false
  ∧ ∃ text, to_string (first_type entry) = Some text ∧ d = listed_as entry text.



(** The text of a number or of [undefined], the values [toNumber] returns. *)
Definition numeral (v : value) : string :=
  match v with
  | Num n => number_to_string n
  | _ => "undefined"
  end.

(** The device [d] after the four assignments that end [updateDevice], for
    the status document [values] and the clock reading [t]. *)
Definition assigned (values : value) (d : Device) (t : Z) : Device :=
  let map := deviceTypeMap_of values in
  let port := toNumber (attribute (garageDoorModule_of map) "portId") in
  {| description := description d; name := name d; id := id d;
     model := model d; type := type d;
     moduleId := toNumber (attribute (garageDoorModule_of map) "moduleId");
     portId := port;
     state := toNumber (attribute (prop map ("garageDoor_" +:+ numeral port))
                                  "doorState");
     stateAsOf := Num (Int t) |}.

(** *** Further sample data *)

(** A session that holds a key and an expiry after the sample clock. *)
Definition signed_in : Session :=
  mkSession ∅ (Str "KEY1") (Some (Valid 1767225600000)).

Definition signed_in_world (d : Device) (replies : list reply)
    (connection : list ws_event) : World :=
  with_session signed_in (Scenario.world d replies connection).

(** A device the caller knows nothing of. *)
Definition unknown : Device :=
  mkDevice Undefined Undefined Undefined Undefined Undefined
           Undefined Undefined Undefined Undefined.

(** The document of a reply. *)
Definition document (r : reply) : value :=
  match r with
  | Response _ _ _ (Some v) => v
  | _ => Undefined
  end.

(** A login answer whose cookie has no expiry. *)
Definition login_session_cookie : reply :=
  Response 120 ["sid=s3cr3t; Path=/; HttpOnly"] "login"
    (Some (Obj [("result", Obj [("auth", Obj [("apiKey", Str "KEY1")])])])).

(** The refusal of the service, as a list or status answer. *)
Definition refused : reply :=
  Response 60 [] "refused" (Some (Obj [("result", Str "Unauthorized")])).

(** A status answer with an empty result. *)
Definition status_empty : reply :=
  Response 60 [] "status" (Some (Obj [("result", Arr [])])).

(** ** Reasoning about the monad *)

Lemma bind_run {A B} (m : M A) (k : A → M B) (w : World) :
  (m ≫= k) w =
  match m w with
  | (Return a, w') => k a w'
  | (Throw x, w') => (Throw x, w')
  | (Never, w') => (Never, w')
  end.
Proof. reflexivity. Qed.

(** Straight-line steps ([get], [update], [ret], the logger, the socket
    writes) run by computation. *)
Ltac step :=
  cbv beta iota zeta delta
    [mbind M_bind bind mret M_ret ret get update throw try_catch
     logger_debug logger_error ws_send ws_ping ws_terminate read ToString];
  cbn [logged written with_session with_device negb orb andb
       session credentials device log now net requests sockets wire].

(** ** Cookie merge (C8) *)

Lemma updateSessionFromCookies_fields (cs : list string) (s : Session) :
  updateSessionFromCookies s cs =
  mkSession (merged_jar cs (cookies s)) (apiKey s) (merged_expiry cs (cookieExpires s)).
Proof.
  revert s. induction cs as [|c cs IH]; intros s.
  - destruct s; reflexivity.
  - unfold updateSessionFromCookies in *. simpl. rewrite IH.
    unfold updateSessionFromCookie.
    destruct (Regex.match_expires c), (Regex.match_pair c) as [[k v]|]; reflexivity.
Qed.

Lemma merged_jar_union (cs : list string) (jar : gmap string string) :
  merged_jar cs jar = merged_jar cs ∅ ∪ jar.
Proof.
  revert jar. induction cs as [|c cs IH]; intros jar; simpl.
  - by rewrite (left_id_L ∅ (∪)).
  - unfold merged_jar in *. simpl.
    destruct (Regex.match_pair c) as [[k v]|]; [|apply IH].
    rewrite IH, (IH (<[k:=v]> ∅)), <- (assoc_L (∪)).
    by rewrite <- insert_union_l, (left_id_L ∅ (∪)).
Qed.

Lemma merged_expiry_union (cs : list string) (e : option date) :
  merged_expiry cs e = merged_expiry cs None ∪ e.
Proof.
  revert e. induction cs as [|c cs IH]; intros e; simpl.
  - by destruct e.
  - unfold merged_expiry in *. simpl.
    destruct (Regex.match_expires c) as [x|]; [|apply IH].
    rewrite IH. by match goal with |- ?X ∪ _ = _ => destruct X, e end.
Qed.

(** C8: merging the same list of [set-cookie] headers a second time leaves
    the session (cookie jar, cached key and cookie expiry) as the first
    merge left it. *)
Theorem updateSessionFromCookies_idempotent (s : Session) (cs : list string) :
  updateSessionFromCookies (updateSessionFromCookies s cs) cs =
  updateSessionFromCookies s cs.
Proof.
  rewrite !updateSessionFromCookies_fields. simpl. f_equal.
  - rewrite merged_jar_union, (merged_jar_union cs (cookies s)).
    by rewrite (assoc_L (∪)), (idemp_L (∪)).
  - rewrite merged_expiry_union, (merged_expiry_union cs (cookieExpires s)).
    by destruct (merged_expiry cs None), (cookieExpires s).
Qed.

(** ** Door state (C2) *)

(** C2: when the status query of [getStatus] returns and leaves a numeric
    state code on the device, [getStatus] returns CLOSED, OPEN, CLOSING or
    OPENING for the codes 0, 1, 2 and 3 respectively, and the unknown-state
    result [None] (a normal return, nothing thrown) for every other
    number. *)
Theorem getStatus_maps_state_code (w w' : World) (code : number) :
  updateDevice (logged (mkEntry DEBUG "Updating ryobi data" NoPayload) w)
    = (Return tt, w') →
  state (device w') = Num code →
  getStatus w =
  (Return match code with
          | Int 0 => Some CLOSED
          | Int 1 => Some OPEN
          | Int 2 => Some CLOSING
          | Int 3 => Some OPENING
          | _ => None
          end, w').
Proof.
  intros Hupdate Hstate. unfold getStatus.
  step. rewrite Hupdate, Hstate. simpl.
  destruct code as [z|r]; [|reflexivity].
  destruct z as [|p|p]; try reflexivity.
  destruct p as [[p|p|]|[p|p|]|]; reflexivity.
Qed.

(** ** Addressing guard (C10) *)

(** C10: when the status query that opens [sendWebsocketCommand] returns
    and leaves the number 0 as the device's [moduleId] or [portId], the
    command throws an addressing error ('doorModuleId is undefined' when
    the module identifier is falsy, else 'doorPortId is undefined'), although
    the identifier is a resolved number: the guards test truthiness. *)
Theorem sendWebsocketCommand_rejects_zero (message : value) (w w1 : World) :
  resolve_addressing w = (Return tt, w1) →
  moduleId (device w1) = Num (Int 0) ∨ portId (device w1) = Num (Int 0) →
  sendWebsocketCommand message w =
  (Throw (if truthy (moduleId (device w1)) then PortIdUndefined else ModuleIdUndefined),
   w1).
Proof.
  intros Hresolve Hzero. unfold sendWebsocketCommand.
  step. rewrite Hresolve.
  destruct Hzero as [Hm|Hp].
  - rewrite Hm. reflexivity.
  - rewrite Hp. destruct (truthy (moduleId (device w1))); reflexivity.
Qed.

(** ** Fire and forget (C9) *)

(** C9: [openDoor] and [closeDoor] never throw, whatever the device and the
    world; when the command they send throws [x] (an authentication,
    addressing, channel or transport error, or any other), they return
    normally, having logged [x] at error level as their last act. *)
Theorem openDoor_closeDoor_swallow_errors (w : World) :
  (∀ x, fst (openDoor w) ≠ Throw x) ∧
  (∀ x, fst (closeDoor w) ≠ Throw x) ∧
  (∀ x w',
     sendWebsocketCommand (Obj [("doorCommand", Num (Int 1))])
       (logged (mkEntry DEBUG "GARAGEDOOR openDoor" NoPayload) w) = (Throw x, w') →
     openDoor w =
     (Return tt, logged (mkEntry ERROR "Error sending openDoor command: " (OfError x)) w')) ∧
  (∀ x w',
     sendWebsocketCommand (Obj [("doorCommand", Num (Int 0))])
       (logged (mkEntry DEBUG "GARAGEDOOR closeDoor" NoPayload) w) = (Throw x, w') →
     closeDoor w =
     (Return tt, logged (mkEntry ERROR "Error sending closeDoor command: " (OfError x)) w')).
Proof.
  unfold openDoor, closeDoor. repeat split.
  - intros x. step.
    destruct (sendWebsocketCommand _ _) as [[[]|y|] w']; discriminate.
  - intros x. step.
    destruct (sendWebsocketCommand _ _) as [[[]|y|] w']; discriminate.
  - intros x w' H. step. rewrite H. reflexivity.
  - intros x w' H. step. rewrite H. reflexivity.
Qed.

(** ** The command channel (C1) *)

Lemma on_message_authorized (message : value) (data : string) (doc : value)
    (ch : channel) (w : World) :
  authorized doc = true →
  ∃ w', on_message message data (Some doc) ch w
          = (Return (mkChannel true (outcome_of ch)), w')
      ∧ wire w' = wire w ++ [Send (command_frame (device w) message); Ping]
      ∧ device w' = device w.
Proof.
  unfold authorized, on_message. intros [Hdoc Hauth]%andb_prop. step.
  apply negb_true_iff in Hdoc. rewrite Hdoc, Hauth. simpl.
  eexists. split; [reflexivity|]. simpl. by rewrite <- app_assoc.
Qed.

Lemma emit_preliminary (key message : value) (ev : ws_event) (ch : channel) (w : World) :
  preliminary ev = true →
  ∃ w' sent, emit key message ev ch w = (Return ch, w')
           ∧ wire w' = wire w ++ sent ∧ device w' = device w.
Proof.
  destruct ev as [|data [doc|]| | |]; try discriminate; simpl.
  - intros _. unfold on_open. step. eexists _, [_]. by simpl.
  - unfold authorized, on_message. intros [Hdoc Hauth]%andb_prop. step.
    apply negb_true_iff in Hdoc. rewrite Hdoc in *. simpl in Hauth.
    apply negb_true_iff in Hauth. rewrite Hauth. simpl.
    eexists _, []. by rewrite app_nil_r.
Qed.

Lemma await_promise_cons (key message : value) (ev : ws_event) (evs : list ws_event)
    (ch ch' : channel) (w w' : World) :
  outcome_of ch = Pending →
  emit key message ev ch w = (Return ch', w') →
  await_promise key message (ev :: evs) ch w = await_promise key message evs ch' w'.
Proof. intros Hp He. simpl. rewrite Hp, He. reflexivity. Qed.

Lemma await_promise_settled (key message : value) (evs : list ws_event)
    (c : bool) (w : World) :
  await_promise key message evs (mkChannel c Resolved) w = (Return tt, w) ∧
  ∀ x, await_promise key message evs (mkChannel c (Rejected x)) w = (Throw x, w).
Proof. destruct evs; split; reflexivity. Qed.

Lemma on_pong_settles (ch : channel) (w : World) :
  ∃ w', on_pong ch w = (Return (mkChannel (complete ch) (settle (outcome_of ch) Resolved)), w')
      ∧ wire w' = wire w ++ [Terminate].
Proof. unfold on_pong. step. eexists. split; reflexivity. Qed.

Lemma on_close_premature (p : promise) (w : World) :
  ∃ w', on_close (mkChannel false p) w
        = (Return (mkChannel false (settle p (Rejected ClosedPrematurely))), w').
Proof. unfold on_close. step. simpl. eexists. reflexivity. Qed.

Lemma await_promise_preliminary (key message : value) (pre evs : list ws_event)
    (c : bool) (w : World) :
  forallb preliminary pre = true →
  ∃ w' sent, await_promise key message (pre ++ evs) (mkChannel c Pending) w
             = await_promise key message evs (mkChannel c Pending) w'
           ∧ wire w' = wire w ++ sent ∧ device w' = device w.
Proof.
  revert w. induction pre as [|ev pre IH]; intros w Hpre; simpl in Hpre.
  - exists w, []. by rewrite app_nil_r.
  - apply andb_prop in Hpre as [Hev Hpre].
    destruct (emit_preliminary key message ev (mkChannel c Pending) w Hev)
      as (w1 & s1 & Hemit & Hwire & Hdev).
    destruct (IH w1 Hpre) as (w2 & s2 & Hrun & Hwire2 & Hdev2).
    exists w2, (s1 ++ s2). simpl. rewrite Hemit, Hrun.
    split; [reflexivity|]. split; [|congruence].
    by rewrite Hwire2, Hwire, app_assoc.
Qed.

Lemma await_promise_resolves (key message : value) (data : string) (doc : value)
    (pre rest : list ws_event) (w : World) :
  authorized doc = true →
  forallb preliminary pre = true →
  ∃ w' sent,
    await_promise key message (pre ++ Message data (Some doc) :: Pong :: rest)
      (mkChannel false Pending) w = (Return tt, w')
    ∧ wire w' = wire w ++ sent
                ++ [Send (command_frame (device w) message); Ping; Terminate].
Proof.
  intros Hauth Hpre.
  destruct (await_promise_preliminary key message pre
              (Message data (Some doc) :: Pong :: rest) false w Hpre)
    as (w1 & sent & Hrun & Hwire & Hdev).
  destruct (on_message_authorized message data doc (mkChannel false Pending) w1 Hauth)
    as (w2 & Hmsg & Hwire2 & _).
  destruct (on_pong_settles (mkChannel true Pending) w2) as (w3 & Hpong & Hwire3).
  exists w3, sent. split.
  - rewrite Hrun. simpl in Hmsg, Hpong.
    erewrite await_promise_cons; [|reflexivity|exact Hmsg].
    erewrite await_promise_cons; [|reflexivity|exact Hpong].
    apply await_promise_settled.
  - rewrite Hwire3, Hwire2, Hwire, Hdev, <- !app_assoc. reflexivity.
Qed.

Lemma await_promise_rejects (key message : value) (pre rest : list ws_event)
    (w : World) :
  forallb preliminary pre = true →
  ∃ w', await_promise key message (pre ++ Close :: rest) (mkChannel false Pending) w
        = (Throw ClosedPrematurely, w').
Proof.
  intros Hpre.
  destruct (await_promise_preliminary key message pre (Close :: rest) false w Hpre)
    as (w1 & sent & Hrun & _).
  destruct (on_close_premature Pending w1) as (w2 & Hclose).
  exists w2. rewrite Hrun. simpl in Hclose.
  erewrite await_promise_cons; [|reflexivity|exact Hclose].
  apply await_promise_settled.
Qed.

(** [sendWebsocketCommand], run on a device whose identifiers are truthy:
    the key is obtained, the next connection is opened and its promise
    awaited. *)
Lemma sendWebsocketCommand_run (message key : value) (w w1 : World) :
  truthy (moduleId (device w)) = true →
  truthy (portId (device w)) = true →
  getApiKey w = (Return key, w1) →
  sendWebsocketCommand message w =
  match await_promise key message (hd [] (sockets w1)) (mkChannel false Pending)
          (snd (new_WebSocket w1)) with
  | (Return _, w') => (Return tt, logged (mkEntry DEBUG "command finished" NoPayload) w')
  | (Throw x, w') => (Throw x, w')
  | (Never, w') => (Never, w')
  end.
Proof.
  intros Hm Hp Hkey. unfold sendWebsocketCommand, resolve_addressing. step.
  rewrite Hm, Hp. step. rewrite ?Hm, ?Hp. step. rewrite Hkey.
  unfold new_WebSocket. cbn [snd].
  destruct (await_promise _ _ _ _ _) as [[[]|x|] w']; reflexivity.
Qed.

(** C1: in every invocation, whatever the state of the flag [c] and of the
    promise [p]: the listener of an authorized message sends the command
    frame, sets the flag and sends a ping, in this order; the pong listener
    terminates the socket and resolves the promise; the close listener,
    when the flag is not set, rejects the promise with 'WebSocket closed
    prematurely'.  The command frame is the JSON-RPC request of method
    [gdoModuleCommand] whose parameters are the message type 16, the
    [moduleId] of the device as module type, its [portId], the message of
    the command and the [id] of the device as topic.  Hence a connection
    that emits, after its preliminaries, an authorized message and then a
    pong makes the awaited operation return, with command, ping and
    terminate as the last socket writes, and one that emits its close event
    before any authorized message makes it throw 'WebSocket closed
    prematurely'; and so [sendWebsocketCommand] returns, respectively
    throws, once it has its key. *)
Theorem command_channel_protocol (key message : value) (data : string) (doc : value)
    (pre rest : list ws_event) (c : bool) (p : promise) (w : World) :
  authorized doc = true →
  forallb preliminary pre = true →
  let command :=
    Obj [("jsonrpc", Str "2.0"); ("method", Str "gdoModuleCommand");
         ("params", Obj [("msgType", Num (Int 16));
                         ("moduleType", moduleId (device w));
                         ("portId", portId (device w));
                         ("moduleMsg", message);
                         ("topic", id (device w))])] in
  (∃ w', on_message message data (Some doc) (mkChannel c p) w
           = (Return (mkChannel true p), w')
       ∧ wire w' = wire w ++ [Send command; Ping]) ∧
  (∃ w', on_pong (mkChannel c p) w = (Return (mkChannel c (settle p Resolved)), w')
       ∧ wire w' = wire w ++ [Terminate]) ∧
  settle Pending Resolved = Resolved ∧
  (∃ w', on_close (mkChannel false p) w
           = (Return (mkChannel false (settle p (Rejected ClosedPrematurely))), w')) ∧
  settle Pending (Rejected ClosedPrematurely) = Rejected ClosedPrematurely ∧
  (∃ w' sent,
     await_promise key message (pre ++ Message data (Some doc) :: Pong :: rest)
       (mkChannel false Pending) w = (Return tt, w')
     ∧ wire w' = wire w ++ sent ++ [Send command; Ping; Terminate]) ∧
  (∃ w',
     await_promise key message (pre ++ Close :: rest) (mkChannel false Pending) w
       = (Throw ClosedPrematurely, w')) ∧
  (∀ (w1 : World) (later : list (list ws_event)),
     truthy (moduleId (device w)) = true →
     truthy (portId (device w)) = true →
     getApiKey w = (Return key, w1) →
     (sockets w1 = (pre ++ Message data (Some doc) :: Pong :: rest) :: later →
      ∃ w', sendWebsocketCommand message w = (Return tt, w')) ∧
     (sockets w1 = (pre ++ Close :: rest) :: later →
      ∃ w', sendWebsocketCommand message w = (Throw ClosedPrematurely, w'))).
Proof.
  intros Hauth Hpre command. repeat split.
  - destruct (on_message_authorized message data doc (mkChannel c p) w Hauth)
      as (w' & H & Hwire & _). eauto.
  - apply (on_pong_settles (mkChannel c p)).
  - apply on_close_premature.
  - by apply await_promise_resolves.
  - by apply await_promise_rejects.
  - intros Hsockets. rewrite (sendWebsocketCommand_run message key w w1) by done.
    rewrite Hsockets. cbn [hd].
    destruct (await_promise_resolves key message data doc pre rest
                (snd (new_WebSocket w1)) Hauth Hpre) as (w' & sent & -> & _).
    eauto.
  - intros Hsockets. rewrite (sendWebsocketCommand_run message key w w1) by done.
    rewrite Hsockets. cbn [hd].
    destruct (await_promise_rejects key message pre rest
                (snd (new_WebSocket w1)) Hpre) as (w' & ->).
    eauto.
Qed.

(** ** The API key (C5, C6) *)

(** [getJson], run: one request, answered by the next reply. *)
Lemma getJson_run (url : string) (init : request_init) (w : World) :
  getJson url init w =
  let rq := mkRequest url init (cookies (session w)) in
  let get := mkEntry DEBUG ("GET " +:+ url) NoPayload in
  match net w (length (requests w)) with
  | Response dt cs body js =>
      (match js with Some v => Return v | None => Throw SyntaxError end,
       mkWorld (updateSessionFromCookies (session w) cs) (credentials w) (device w)
               ((log w ++ [get]) ++ [mkEntry DEBUG body NoPayload])
               (now w + Z.of_N dt) (net w) (requests w ++ [rq]) (sockets w) (wire w))
  | Rejection x =>
      (Throw (FetchError x),
       mkWorld (session w) (credentials w) (device w) (log w ++ [get]) (now w)
               (net w) (requests w ++ [rq]) (sockets w) (wire w))
  end.
Proof.
  unfold getJson, request_, fetch. step.
  destruct (net w (length (requests w))) as [dt cs body [doc|]|x]; reflexivity.
Qed.

Lemma getApiKey_cached (w : World) :
  cached (session w) (Valid (now w)) = true →
  getApiKey w =
  (Return (apiKey (session w)), logged (mkEntry DEBUG "getApiKey" NoPayload) w).
Proof. intros H. unfold getApiKey. step. rewrite H. reflexivity. Qed.

(** [getApiKey], run without a valid cached key. *)
Lemma getApiKey_run (w : World) :
  cached (session w) (Valid (now w)) = false →
  getApiKey w =
  let w0 := logged (mkEntry DEBUG "getApiKey" NoPayload) w in
  match getJson apikeyURL
          (PostLogin (email (credentials w)) (password (credentials w))) w0 with
  | (Return doc, w1) =>
      if nullish doc then (Throw (TypeError "result"), w1)
      else
        let result := prop doc "result" in
        let key := prop (prop result "auth") "apiKey" in
        if is_string result || negb (truthy key)
        then (Throw (refusal result), w1)
        else (Return key,
              with_session (mkSession (cookies (session w1)) key
                                      (cookieExpires (session w1))) w1)
  | (Throw x, w1) => (Throw x, w1)
  | (Never, w1) => (Never, w1)
  end.
Proof.
  intros H. unfold getApiKey, refusal. step. rewrite H. step.
  destruct (getJson _ _ _) as [[doc|x|] w1]; try reflexivity.
  destruct (nullish doc); [reflexivity|]. step.
  destruct (is_string _ || _); [|reflexivity].
  by destruct (to_string _).
Qed.

(** Without a valid cached key the call issues the login request, and no
    other, however the server answers. *)
Lemma getApiKey_requests (w : World) :
  cached (session w) (Valid (now w)) = false →
  requests (snd (getApiKey w)) = requests w ++ [login_request w].
Proof.
  intros H. rewrite (getApiKey_run w H). cbn zeta. rewrite getJson_run. cbn zeta.
  cbn [logged session credentials device log now net requests sockets wire].
  destruct (net w (length (requests w))) as [dt cs body [doc|]|x];
    try reflexivity.
  destruct (nullish doc); [reflexivity|].
  destruct (is_string _ || _); reflexivity.
Qed.

(** What the login answer decides, for an answer that parses to [doc]. *)
Lemma getApiKey_login (w : World) (dt : N) (cs : list string) (body : string)
    (doc : value) :
  cached (session w) (Valid (now w)) = false →
  net w (length (requests w)) = Response dt cs body (Some doc) →
  nullish doc = false →
  let result := prop doc "result" in
  let key := prop (prop result "auth") "apiKey" in
  fst (getApiKey w) =
    (if is_string result || negb (truthy key)
     then Throw (refusal result) else Return key) ∧
  apiKey (session (snd (getApiKey w))) =
    (if is_string result || negb (truthy key)
     then apiKey (session w) else key).
Proof.
  intros H Hnet Hdoc. rewrite (getApiKey_run w H). cbn zeta. rewrite getJson_run. cbn zeta.
  cbn [logged session credentials device log now net requests sockets wire].
  rewrite Hnet, Hdoc.
  destruct (is_string _ || _); split; try reflexivity.
  cbn [snd session]. by rewrite updateSessionFromCookies_fields.
Qed.

(** A key that [getApiKey] returns is truthy and is the one the session
    holds afterwards. *)
Lemma getApiKey_Return (w w1 : World) (key : value) :
  getApiKey w = (Return key, w1) →
  truthy key = true ∧ apiKey (session w1) = key.
Proof.
  destruct (cached (session w) (Valid (now w))) eqn:H.
  - rewrite (getApiKey_cached w H). intros [= <- <-]. simpl.
    unfold cached in H. apply andb_prop in H as [H _]. done.
  - rewrite (getApiKey_run w H). cbn zeta.
    destruct (getJson _ _ _) as [[doc|x|] w0]; try discriminate.
    destruct (nullish doc); [discriminate|].
    destruct (is_string (prop doc "result")); [discriminate|].
    destruct (truthy (prop (prop (prop doc "result") "auth") "apiKey")) eqn:Ht;
      [|discriminate].
    intros [= <- <-]. done.
Qed.

(** C5: a session that holds a truthy cached key and a cookie expiry
    strictly after the clock answers [getApiKey] with the cached key and no
    request.  Consequently, after a first call that had to log in and got a
    key and an expiry [e]: the first call made exactly one request, the
    login; a second call at a time [t2 < e] returns the same key and the
    two calls together have made that one request; a call at a time
    [t3 >= e] issues a second login request. *)
Theorem getApiKey_caches_until_expiry :
  (∀ (w : World) (e : Z),
     truthy (apiKey (session w)) = true →
     cookieExpires (session w) = Some (Valid e) →
     now w < e →
     getApiKey w = (Return (apiKey (session w)),
                    logged (mkEntry DEBUG "getApiKey" NoPayload) w)
     ∧ requests (snd (getApiKey w)) = requests w) ∧
  (∀ (w w1 : World) (key : value) (e t2 t3 : Z),
     cached (session w) (Valid (now w)) = false →
     getApiKey w = (Return key, w1) →
     cookieExpires (session w1) = Some (Valid e) →
     t2 < e ≤ t3 →
     requests w1 = requests w ++ [login_request w]
     ∧ fst (getApiKey (at_time t2 w1)) = Return key
     ∧ requests (snd (getApiKey (at_time t2 w1))) = requests w ++ [login_request w]
     ∧ requests (snd (getApiKey (at_time t3 w1)))
       = requests w ++ [login_request w; login_request w1]).
Proof.
  assert (Hhit : ∀ (w : World) (e : Z),
            truthy (apiKey (session w)) = true →
            cookieExpires (session w) = Some (Valid e) →
            now w < e →
            cached (session w) (Valid (now w)) = true).
  { intros w e Hkey He Hlt. unfold cached. rewrite Hkey, He. simpl.
    by apply Z.ltb_lt. }
  split.
  - intros w e Hkey He Hlt.
    rewrite (getApiKey_cached w (Hhit w e Hkey He Hlt)). done.
  - intros w w1 key e t2 t3 Hmiss Hcall He [Ht2 Ht3].
    destruct (getApiKey_Return w w1 key Hcall) as [Hkey Hheld].
    pose proof (getApiKey_requests w Hmiss) as Hone. rewrite Hcall in Hone.
    simpl in Hone.
    assert (Hin : cached (session (at_time t2 w1)) (Valid (now (at_time t2 w1))) = true).
    { apply (Hhit _ e); simpl; congruence. }
    assert (Hout : cached (session (at_time t3 w1)) (Valid (now (at_time t3 w1))) = false).
    { unfold cached. simpl. rewrite He. simpl.
      apply andb_false_intro2. apply Z.ltb_ge. lia. }
    repeat split.
    + exact Hone.
    + rewrite (getApiKey_cached _ Hin). simpl. by rewrite Hheld.
    + rewrite (getApiKey_cached _ Hin). simpl. exact Hone.
    + rewrite (getApiKey_requests _ Hout). simpl. rewrite Hone.
      by rewrite <- app_assoc.
Qed.

(** C6, as the code has it: when [getApiKey] has to log in and the answer
    parses to a document other than [null], the call fails exactly when
    [result] is a string or [result.auth.apiKey] is falsy (absent, or
    [null], [false], [0], [NaN] or the empty string), and then leaves the
    cached key as it was.  The failure is the 'Unauthorized' error, whose
    message ends with [result] as a string, when [result] converts to a
    string, and the TypeError of that conversion when it does not (an
    object with a [toString] property of its own).  So a [result] that is
    a string is the end of the message, and a [result] that is an object
    gives [[object Object]] or the TypeError.  Otherwise the call caches
    [result.auth.apiKey] and returns it. *)
Theorem getApiKey_login_outcome (w : World) (dt : N) (cs : list string)
    (body : string) (doc : value) :
  cached (session w) (Valid (now w)) = false →
  net w (length (requests w)) = Response dt cs body (Some doc) →
  nullish doc = false →
  let result := prop doc "result" in
  let key := prop (prop result "auth") "apiKey" in
  ((∃ x, fst (getApiKey w) = Throw x)
   ↔ is_string result = true ∨ truthy key = false) ∧
  (∀ text,
     fst (getApiKey w) = Throw (Unauthorized text)
     ↔ (is_string result = true ∨ truthy key = false)
       ∧ to_string result = Some text) ∧
  (fst (getApiKey w) = Throw CannotConvert
   ↔ (is_string result = true ∨ truthy key = false) ∧ to_string result = None) ∧
  (is_string result = true ∨ truthy key = false →
   apiKey (session (snd (getApiKey w))) = apiKey (session w)) ∧
  (is_string result = false ∧ truthy key = true →
   fst (getApiKey w) = Return key ∧ apiKey (session (snd (getApiKey w))) = key) ∧
  (∀ text, result = Str text → fst (getApiKey w) = Throw (Unauthorized text)) ∧
  (∀ props,
     result = Obj props → truthy key = false →
     fst (getApiKey w) =
     if has_own "toString" props then Throw CannotConvert
     else Throw (Unauthorized "[object Object]")).
Proof.
  intros Hmiss Hnet Hdoc result key.
  destruct (getApiKey_login w dt cs body doc Hmiss Hnet Hdoc) as [Hout Hkey].
  fold result in Hout, Hkey. fold key in Hout, Hkey.
  assert (Hstring : ∀ text, result = Str text →
                            fst (getApiKey w) = Throw (Unauthorized text)).
  { intros text E. rewrite Hout, E. reflexivity. }
  assert (Hobject : ∀ props,
            result = Obj props → truthy key = false →
            fst (getApiKey w) =
            if has_own "toString" props then Throw CannotConvert
            else Throw (Unauthorized "[object Object]")).
  { intros props E Hfalsy. rewrite Hout, Hfalsy, E. unfold refusal.
    cbn [is_string negb orb to_string]. by destruct (has_own "toString" props). }
  split_and!; [..|exact Hstring|exact Hobject];
    rewrite ?Hout, ?Hkey; unfold refusal;
    destruct (is_string result), (truthy key), (to_string result) as [text'|];
    simpl; intuition (try congruence; eauto);
    match goal with H : ∃ _, _ |- _ => destruct H; discriminate end.
Qed.

(** ** The device list (C7) *)

Lemma getJson_device (url : string) (init : request_init) (w : World) :
  device (snd (getJson url init w)) = device w.
Proof.
  rewrite getJson_run. cbn zeta.
  destruct (net w (length (requests w))) as [dt cs body js|x]; reflexivity.
Qed.

Lemma getJson_Return (url : string) (init : request_init) (w w' : World) (doc : value) :
  getJson url init w = (Return doc, w') →
  last_document w' = Some doc ∧ net w' = net w ∧ device w' = device w.
Proof.
  rewrite getJson_run. cbn zeta.
  destruct (net w (length (requests w))) as [dt cs body [v|]|x] eqn:Hnet;
    try discriminate.
  intros [= <- <-]. unfold last_document. simpl.
  rewrite length_app. simpl. rewrite Nat.add_sub, Hnet. done.
Qed.

Lemma getApiKey_device (w : World) : device (snd (getApiKey w)) = device w.
Proof.
  destruct (cached (session w) (Valid (now w))) eqn:H.
  - by rewrite (getApiKey_cached w H).
  - rewrite (getApiKey_run w H). cbn zeta.
    pose proof (getJson_device apikeyURL
      (PostLogin (email (credentials w)) (password (credentials w)))
      (logged (mkEntry DEBUG "getApiKey" NoPayload) w)) as Hd.
    destruct (getJson _ _ _) as [[doc|x|] w1]; simpl in Hd; try exact Hd.
    destruct (nullish doc); [exact Hd|].
    destruct (is_string _ || _); exact Hd.
Qed.

(** The callback of [getDevices], run on one raw entry. *)
Lemma listed_run (entry : value) (w : World) :
  listed entry w =
  (if nullish entry then Throw (TypeError "metaData")
   else match to_string (first_type entry) with
        | Some text => Return (listed_as entry text)
        | None => Throw CannotConvert
        end, w).
Proof.
  unfold listed, first_type, listed_as. step.
  destruct (nullish entry); [reflexivity|]. step.
  by destruct (to_string _).
Qed.

(** The mapping of the raw entries touches nothing; when it returns, every
    entry is listed as the device at its place. *)
Lemma map_listed_run (entries : list value) (w : World) :
  snd (map_listed entries w) = w
  ∧ ∀ ds, fst (map_listed entries w) = Return ds → Forall2 lists entries ds.
Proof.
  induction entries as [|e es IH]; simpl.
  - split; [reflexivity|]. intros ds [= <-]. constructor.
  - rewrite bind_run, listed_run.
    destruct (nullish e) eqn:He; [split; [reflexivity|discriminate]|].
    destruct (to_string (first_type e)) as [text|] eqn:Ht;
      [|split; [reflexivity|discriminate]].
    rewrite bind_run. destruct IH as [IH1 IH2].
    destruct (map_listed es w) as [[ds|x|] w']; cbn [fst snd] in *; subst w';
      (split; [reflexivity|]); try discriminate.
    intros ds' [= <-]. constructor; [|by apply IH2].
    split; [exact He|]. by exists text.
Qed.

(** [getDevicesRaw], run. *)
Lemma getDevicesRaw_run (w : World) :
  getDevicesRaw w =
  match getJson deviceURL Get w with
  | (Return doc, w1) =>
      if nullish doc then (Throw (TypeError "result"), w1)
      else if is_string (prop doc "result") || negb (is_array (prop doc "result"))
           then (Throw (refusal (prop doc "result")), w1)
           else (Return (elements (prop doc "result")), w1)
  | (Throw x, w1) => (Throw x, w1)
  | (Never, w1) => (Never, w1)
  end.
Proof.
  unfold getDevicesRaw, refusal. step.
  destruct (getJson _ _ _) as [[doc|x|] w1]; try reflexivity.
  destruct (nullish doc); [reflexivity|]. step.
  destruct (is_string _ || _); [|reflexivity].
  by destruct (to_string _).
Qed.

Lemma getDevices_device (w : World) : device (snd (getDevices w)) = device w.
Proof.
  unfold getDevices. rewrite bind_run.
  pose proof (getApiKey_device w) as H0.
  destruct (getApiKey w) as [[key|x|] w0]; simpl in H0; try exact H0.
  rewrite bind_run, getDevicesRaw_run.
  pose proof (getJson_device deviceURL Get w0) as H1.
  destruct (getJson _ _ _) as [[doc|x|] w1]; simpl in H1;
    try (simpl; congruence).
  destruct (nullish doc); [simpl; congruence|].
  destruct (is_string _ || _); [simpl; congruence|].
  rewrite (proj1 (map_listed_run _ w1)). congruence.
Qed.

(** What a returning [getDevices] did: it read the array [result] of the
    last document and mapped it entry by entry. *)
Lemma getDevices_Return (w w' : World) (ds : list Device) :
  getDevices w = (Return ds, w') →
  ∃ doc entries,
    last_document w' = Some doc ∧ prop doc "result" = Arr entries
    ∧ Forall2 lists entries ds ∧ device w' = device w.
Proof.
  unfold getDevices. rewrite bind_run.
  pose proof (getApiKey_device w) as H0.
  destruct (getApiKey w) as [[key|x|] w0]; simpl in H0; try discriminate.
  rewrite bind_run, getDevicesRaw_run.
  destruct (getJson deviceURL Get w0) as [[doc|x|] w1] eqn:Hjson; try discriminate.
  apply getJson_Return in Hjson as (Hlast & _ & Hdev).
  destruct (nullish doc); [discriminate|].
  destruct (prop doc "result") as [| | | | |entries| |] eqn:Hresult;
    try discriminate.
  cbn [is_string is_array negb orb elements].
  destruct (map_listed_run entries w1) as [Hsame Hlists].
  destruct (map_listed entries w1) as [[ds'|x|] w2]; try discriminate.
  cbn [fst snd] in Hsame, Hlists. subst w2.
  intros [= <- <-]. exists doc, entries. split; [exact Hlast|].
  split; [exact Hresult|]. split; [by apply Hlists|congruence].
Qed.

Lemma coalesce_not_nullish (v : value) : nullish (coalesce v (Str "")) = false.
Proof. unfold coalesce. destruct (nullish v) eqn:H; [reflexivity|exact H]. Qed.

(** The leftmost-match search for [/hub/i] finds a match exactly when the
    text mentions hub. *)
Lemma ci_spec (lower upper x : ascii) :
  upper = ascii_of_nat (nat_of_ascii lower - 32) →
  Regex.ci lower x = true ↔ x = lower ∨ x = upper.
Proof.
  intros ->. unfold Regex.ci. rewrite orb_true_iff, !Ascii.eqb_eq. tauto.
Qed.

Lemma match_here_hub (l : list ascii) :
  is_Some (Regex.match_here Regex.hub_re l) ↔
  ∃ after h u b, l = h :: u :: b :: after
    ∧ (h = "h" ∨ h = "H")%char ∧ (u = "u" ∨ u = "U")%char
    ∧ (b = "b" ∨ b = "B")%char.
Proof.
  setoid_rewrite <- (ci_spec "h" "H"); [|reflexivity].
  setoid_rewrite <- (ci_spec "u" "U"); [|reflexivity].
  setoid_rewrite <- (ci_spec "b" "B"); [|reflexivity].
  unfold Regex.hub_re. split.
  - destruct l as [|h [|u [|b after]]]; simpl.
    + intros [? ?]; discriminate.
    + destruct (Regex.ci "h" h); intros [? ?]; discriminate.
    + destruct (Regex.ci "h" h); simpl; [|intros [? ?]; discriminate].
      destruct (Regex.ci "u" u); intros [? ?]; discriminate.
    + destruct (Regex.ci "h" h) eqn:Hh; simpl; [|intros [? ?]; discriminate].
      destruct (Regex.ci "u" u) eqn:Hu; simpl; [|intros [? ?]; discriminate].
      destruct (Regex.ci "b" b) eqn:Hb; simpl; [|intros [? ?]; discriminate].
      intros _. by exists after, h, u, b.
  - intros (after & h & u & b & -> & Hh & Hu & Hb). simpl.
    rewrite Hh. simpl. rewrite Hu. simpl. rewrite Hb. simpl. eauto.
Qed.

Lemma test_hub_spec (s : string) : Regex.test_hub s = true ↔ mentions_hub s.
Proof.
  unfold Regex.test_hub, mentions_hub. rewrite bool_decide_eq_true.
  generalize (list_ascii_of_string s) as l. clear s.
  induction l as [|c l IH].
  - simpl. split.
    + intros [? ?]; discriminate.
    + intros (before & after & h & u & b & H & _). by destruct before.
  - cbn [Regex.search].
    destruct (Regex.match_here Regex.hub_re (c :: l)) as [m|] eqn:Hm.
    + split; [intros _|eauto].
      destruct (proj1 (match_here_hub (c :: l))) as (after & h & u & b & E & H);
        [rewrite Hm; eauto|].
      by exists [], after, h, u, b.
    + rewrite IH. split.
      * intros (before & after & h & u & b & E & H).
        exists (c :: before), after, h, u, b. simpl. by rewrite E.
      * intros (before & after & h & u & b & E & H).
        destruct before as [|c' before]; simpl in E.
        -- assert (is_Some (Regex.match_here Regex.hub_re (c :: l))) as [? Hs].
           { apply match_here_hub. by exists after, h, u, b. }
           congruence.
        -- injection E as -> ->. by exists before, after, h, u, b.
Qed.

(** C7: when [getDevices] returns, it has read the array [result] of the
    device-list document and produced one device per raw entry, in order,
    with: [id] the entry's [varName]; [name] and [description] the
    [metaData] fields of these names; [model] the first element of
    [deviceTypeIds]; each of them the empty string when the value is absent
    (or [null]); and [type] the string hub exactly when the model, which
    then converts to a string, mentions hub in any mix of cases, else gdo.
    None of the five fields is [undefined] or [null]. *)
Theorem getDevices_maps_entries (w w' : World) (ds : list Device) :
  getDevices w = (Return ds, w') →
  ∃ doc entries,
    last_document w' = Some doc ∧ prop doc "result" = Arr entries ∧
    Forall2 (fun entry d =>
      let or_empty v := match v with Undefined | Null => Str "" | _ => v end in
      id d = or_empty (prop entry "varName") ∧
      name d = or_empty (prop (prop entry "metaData") "name") ∧
      description d = or_empty (prop (prop entry "metaData") "description") ∧
      model d = or_empty (prop (prop entry "deviceTypeIds") "0") ∧
      (∃ text, to_string (model d) = Some text
         ∧ (type d = Str "hub" ∧ mentions_hub text
            ∨ type d = Str "gdo" ∧ ¬ mentions_hub text)) ∧
      Forall (fun field => nullish field = false)
             [id d; name d; description d; model d; type d])
      entries ds.
Proof.
  intros (doc & entries & Hlast & Hresult & Hlists & _)%getDevices_Return.
  exists doc, entries. split; [exact Hlast|]. split; [exact Hresult|].
  eapply Forall2_impl; [exact Hlists|]. clear.
  intros e d (_ & text & Htext & ->).
  assert (Hor : ∀ v, coalesce v (Str "") =
                     match v with Undefined | Null => Str "" | _ => v end).
  { by intros []. }
  cbn zeta. unfold listed_as, first_type in *.
  cbn [id name description model type].
  rewrite <- !Hor. repeat split.
  - exists text. split; [exact Htext|].
    destruct (Regex.test_hub text) eqn:Hhub.
    + left. split; [reflexivity|]. by apply test_hub_spec.
    + right. split; [reflexivity|]. rewrite <- test_hub_spec. congruence.
  - repeat constructor; try apply coalesce_not_nullish.
    by destruct (Regex.test_hub _).
Qed.

(** ** Device resolution (C3, C4) *)

(** What [getDeviceId] does to the device, whatever its outcome: it
    assigns a listed device to it, or nothing. *)
Lemma getDeviceId_device (w : World) :
  ∃ source : option Device,
    device (snd (getDeviceId w)) = Object_assign (device w) source
    ∧ ∀ s, source = Some s → ∃ entry text, s = listed_as entry text.
Proof.
  unfold getDeviceId. step.
  destruct (truthy (id (device w))) eqn:Hid.
  { exists None. done. }
  step.
  match goal with |- context [getDevices ?W] => set (w0 := W) end.
  pose proof (getDevices_device w0) as Hd.
  destruct (getDevices w0) as [[ds|x|] w1] eqn:Hg; simpl in Hd;
    try (exists None; done).
  apply getDevices_Return in Hg as (doc & entries & _ & _ & Hlists & _).
  assert (Hfound : ∀ f s, List.find f ds = Some s →
                          ∃ entry text, s = listed_as entry text).
  { assert (Hall : List.Forall (fun s => ∃ entry text, s = listed_as entry text) ds).
    { clear -Hlists.
      induction Hlists as [|e d es ds (_ & text & _ & ->) _ IH]; constructor; eauto. }
    intros f s [Hin _]%find_some.
    exact (proj1 (List.Forall_forall _ _) Hall s Hin). }
  rewrite Hd. cbn [device w0].
  destruct (negb (truthy (id (device w))) && truthy (name (device w))); step;
    match goal with |- context [Object_assign ?d ?src] =>
      exists src; destruct (to_string _);
      (split; [reflexivity|]); intros s' Hs; eapply Hfound, Hs
    end.
Qed.

Lemma Object_assign_kept (d : Device) (source : option Device) :
  (∀ s, source = Some s → ∃ entry text, s = listed_as entry text) →
  kept all_fields d (Object_assign d source)
  ∧ moduleId (Object_assign d source) = moduleId d
  ∧ portId (Object_assign d source) = portId d
  ∧ state (Object_assign d source) = state d
  ∧ stateAsOf (Object_assign d source) = stateAsOf d.
Proof.
  intros Hsource. destruct source as [s|]; simpl.
  - destruct (Hsource s eq_refl) as (entry & text & ->).
    split; [|done]. unfold kept, all_fields.
    repeat constructor; simpl; try done.
    all: intros _ H; unfold first_type in H;
      match type of H with
      | coalesce ?v _ = _ =>
          pose proof (coalesce_not_nullish v) as Hn; rewrite H in Hn; discriminate
      | _ => idtac
      end.
    by destruct (Regex.test_hub _).
  - split; [|done]. unfold kept. by apply Forall_forall.
Qed.





Lemma to_string_toNumber (v : value) :
  to_string (toNumber v) = Some (numeral (toNumber v)).
Proof. unfold toNumber. by destruct v. Qed.

Lemma queryDevice_device (w : World) :
  let r := queryDevice w in
  let d := device w in
  (device (snd r) = d
   ∧ (fst r = Return tt →
      ∃ values, last_document (snd r) = Some values
              ∧ truthy (deviceTypeMap_of values) = false))
  ∨ (fst r = Return tt
     ∧ ∃ values,
         last_document (snd r) = Some values
         ∧ truthy (deviceTypeMap_of values) = true
         ∧ device (snd r) = assigned values d (now (snd r))).
Proof.
  cbn zeta. unfold queryDevice. step.
  destruct (to_string (id (device w))) as [text|];
    [|left; split; [reflexivity|discriminate]].
  step.
  pose proof (getApiKey_device w) as H0.
  destruct (getApiKey w) as [[key|x|] w0]; simpl in H0;
    try (left; split; [exact H0|discriminate]).
  match goal with |- context [getJson ?u Get w0] => set (queryUri := u) end.
  pose proof (getJson_device queryUri Get w0) as H1.
  destruct (getJson queryUri Get w0) as [[values|x|] w1] eqn:Hjson; simpl in H1;
    try (left; simpl; split; [congruence|discriminate]).
  apply getJson_Return in Hjson as (Hlast & _ & _).
  destruct (truthy (prop (prop values "result") "length")); simpl;
    [|left; split; [congruence|discriminate]].
  fold (deviceTypeMap_of values).
  destruct (truthy (deviceTypeMap_of values)) eqn:Hmap; cbn [negb].
  - rewrite to_string_toNumber. step.
    right. split; [reflexivity|].
    exists values. split; [exact Hlast|]. split; [exact Hmap|].
    cbn [snd with_device device now]. rewrite H1, H0. reflexivity.
  - left. split; [simpl; congruence|]. intros _. exists values. done.
Qed.

(** What [updateDevice] does to the device, whatever its outcome. *)
Lemma updateDevice_device (w : World) :
  ∃ source : option Device,
    (∀ s, source = Some s → ∃ entry text, s = listed_as entry text) ∧
    let r := updateDevice w in
    let d := Object_assign (device w) source in
    (device (snd r) = d
     ∧ (fst r = Return tt →
        ∃ values, last_document (snd r) = Some values
                ∧ truthy (deviceTypeMap_of values) = false))
    ∨ (fst r = Return tt
       ∧ ∃ values,
           last_document (snd r) = Some values
           ∧ truthy (deviceTypeMap_of values) = true
           ∧ device (snd r) = assigned values d (now (snd r))).
Proof.
  unfold updateDevice. step.
  destruct (truthy (id (device w))) eqn:Hid; cbn [negb].
  - exists None. split; [done|]. step. apply queryDevice_device.
  - destruct (getDeviceId_device w) as (source & Hdev & Hsource).
    exists source. split; [exact Hsource|]. cbn zeta.
    destruct (getDeviceId w) as [[[]|x|] w1]; cbn [snd] in Hdev.
    + rewrite <- Hdev. apply queryDevice_device.
    + left. split; [exact Hdev|discriminate].
    + left. split; [exact Hdev|discriminate].
Qed.

(** C3, as the code has it: a call of [updateDevice] that returns has read
    a status document; when the first element of its [result] holds a
    [deviceTypeMap], the call has stamped [stateAsOf] with the current
    time, whatever the door-state code resolved to; when it holds none, the
    call has returned early and [stateAsOf] is as it was. *)
Theorem updateDevice_stamps_when_map_found (w w' : World) :
  updateDevice w = (Return tt, w') →
  ∃ values,
    last_document w' = Some values ∧
    (truthy (deviceTypeMap_of values) = true →
     stateAsOf (device w') = Num (Int (now w'))) ∧
    (truthy (deviceTypeMap_of values) = false →
     stateAsOf (device w') = stateAsOf (device w)).
Proof.
  intros Hrun.
  destruct (updateDevice_device w) as (source & Hsource & Heffect).
  cbn zeta in Heffect. rewrite Hrun in Heffect. cbn [fst snd] in Heffect.
  destruct (Object_assign_kept (device w) source Hsource) as (_ & _ & _ & _ & Hstamp).
  destruct Heffect as [[Hdev Hmap]|[_ (values & Hlast & Hmap & Hdev)]].
  - destruct (Hmap eq_refl) as (values & Hlast & Hnone).
    exists values. split; [exact Hlast|]. split; [congruence|].
    intros _. by rewrite Hdev.
  - exists values. split; [exact Hlast|]. split; [|congruence].
    intros _. by rewrite Hdev.
Qed.


(** * Further properties of the code *)

(** ** The set-cookie patterns *)

Lemma many_sound {R} (cls : ascii → bool) (k : list ascii → option R)
    (need : bool) (s w : list ascii) (r : R) :
  Regex.many cls k need s = Some (w, r) →
  Forall (fun c => cls c = true) w ∧ (need = true → w ≠ [])
  ∧ ∃ s', s = w ++ s' ∧ k s' = Some r.
Proof.
  revert need w r. induction s as [|c s IH]; intros need w r; simpl.
  - destruct need; [discriminate|]. destruct (k []) as [r'|] eqn:Hk; [|discriminate].
    intros [= <- <-]. split; [constructor|]. split; [discriminate|]. by exists [].
  - assert (Hstop : (if need then None else pair [] <$> k (c :: s)) = Some (w, r) →
              Forall (fun c => cls c = true) w ∧ (need = true → w ≠ [])
              ∧ ∃ s', c :: s = w ++ s' ∧ k s' = Some r).
    { destruct need; [discriminate|].
      destruct (k (c :: s)) as [r'|] eqn:Hk; [|discriminate].
      intros [= <- <-]. split; [constructor|]. split; [discriminate|].
      by exists (c :: s). }
    destruct (cls c) eqn:Hc; [|exact Hstop].
    destruct (Regex.many cls k false s) as [[w' r']|] eqn:Hm; [|exact Hstop].
    intros [= <- <-]. destruct (IH false w' r' Hm) as (Hall & _ & s' & -> & Hk).
    split; [by constructor|]. split; [discriminate|]. by exists s'.
Qed.

Lemma match_here_sound (p : list Regex.atom) (s : list ascii) (m : list (list ascii)) :
  Regex.match_here p s = Some m →
  Forall2 takes p m ∧ ∃ s', s = concat m ++ s'.
Proof.
  revert s m. induction p as [|a p IH]; intros s m; simpl.
  - intros [= <-]. split; [constructor|]. by exists s.
  - destruct a as [cls|cls|cls].
    + destruct s as [|c s]; [discriminate|].
      destruct (cls c) eqn:Hc; [|discriminate].
      destruct (Regex.match_here p s) as [m'|] eqn:Hm; [|discriminate].
      intros [= <-]. destruct (IH s m' Hm) as (Hall & s' & ->).
      split; [constructor; [by exists c|exact Hall]|]. by exists s'.
    + destruct (Regex.many cls (Regex.match_here p) false s) as [[w m']|] eqn:Hm;
        [|discriminate].
      intros [= <-]. apply many_sound in Hm as (Hw & _ & s' & -> & Hk).
      destruct (IH s' m' Hk) as (Hall & s'' & ->).
      split; [by constructor|]. exists s''. simpl. by rewrite <- app_assoc.
    + destruct (Regex.many cls (Regex.match_here p) true s) as [[w m']|] eqn:Hm;
        [|discriminate].
      intros [= <-]. apply many_sound in Hm as (Hw & Hne & s' & -> & Hk).
      destruct (IH s' m' Hk) as (Hall & s'' & ->).
      split; [constructor; [split; auto|exact Hall]|].
      exists s''. simpl. by rewrite <- app_assoc.
Qed.

Lemma search_sound (p : list Regex.atom) (s : list ascii) (m : list (list ascii)) :
  Regex.search p s = Some m →
  Forall2 takes p m ∧ ∃ before after, s = before ++ concat m ++ after.
Proof.
  induction s as [|c s IH]; cbn [Regex.search].
  - destruct (Regex.match_here p []) as [m'|] eqn:Hm; [|discriminate].
    intros [= <-]. apply match_here_sound in Hm as (Hall & s' & E).
    split; [exact Hall|]. by exists [], s'.
  - destruct (Regex.match_here p (c :: s)) as [m'|] eqn:Hm.
    + intros [= <-]. apply match_here_sound in Hm as (Hall & s' & E).
      split; [exact Hall|]. by exists [], s'.
    + intros (Hall & before & after & ->)%IH.
      split; [exact Hall|]. by exists (c :: before), after.
Qed.

(** A greedy repetition takes a whole run when the run ends the text or
    meets a character outside the class, and the rest of the pattern
    matches from there. *)
Lemma many_greedy {R} (cls : ascii → bool) (k : list ascii → option R)
    (need : bool) (w s : list ascii) (r : R) :
  Forall (fun c => cls c = true) w →
  (need = true → w ≠ []) →
  match s with [] => True | c :: _ => cls c = false end →
  k s = Some r →
  Regex.many cls k need (w ++ s) = Some (w, r).
Proof.
  intros Hw. revert need. induction Hw as [|c w Hc Hw IH]; intros need Hneed Hs Hk.
  - destruct need; [by destruct Hneed|]. simpl.
    destruct s as [|c s]; simpl; [by rewrite Hk|]. by rewrite Hs, Hk.
  - simpl. rewrite Hc. by rewrite (IH false).
Qed.

Lemma list_ascii_of_string_app (a b : string) :
  list_ascii_of_string (a +:+ b) = list_ascii_of_string a ++ list_ascii_of_string b.
Proof. induction a as [|c a IH]; simpl; [reflexivity|]. by rewrite IH. Qed.

Lemma match_pair_complete (k v rest : string) :
  k ≠ "" → v ≠ "" →
  Forall (fun c => c ≠ "="%char) (list_ascii_of_string k) →
  Forall (fun c => c ≠ ";"%char) (list_ascii_of_string v) →
  ends_or_meets ";" rest →
  Regex.match_pair (k +:+ "=" +:+ v +:+ rest) = Some (k, v).
Proof.
  intros Hk Hv Hkc Hvc Hrest. unfold Regex.match_pair.
  rewrite !list_ascii_of_string_app. cbn [list_ascii_of_string app].
  assert (Hclass : ∀ x l, Forall (fun c => c ≠ x) l →
                          Forall (fun c => Regex.except x c = true) l).
  { intros x l H. eapply Forall_impl; [exact H|]. intros c Hc. unfold Regex.except.
    apply negb_true_iff, Ascii.eqb_neq. congruence. }
  assert (Hempty : ∀ s, s ≠ "" → list_ascii_of_string s ≠ []).
  { intros [|c s]; [done|discriminate]. }
  assert (Hhere : Regex.match_here Regex.pair_re
            (list_ascii_of_string k
             ++ "="%char :: list_ascii_of_string v ++ list_ascii_of_string rest)
            = Some [list_ascii_of_string k; ["="%char]; list_ascii_of_string v]).
  { unfold Regex.pair_re. cbn [Regex.match_here].
    erewrite many_greedy; [reflexivity|by apply Hclass|by intros _; apply Hempty|reflexivity|].
    cbn [Regex.match_here Regex.only]. rewrite Ascii.eqb_refl.
    erewrite many_greedy; [reflexivity|by apply Hclass|by intros _; apply Hempty| |reflexivity].
    destruct Hrest as [->|[r ->]]; reflexivity. }
  destruct (list_ascii_of_string k
            ++ "="%char :: list_ascii_of_string v ++ list_ascii_of_string rest)
    as [|c l] eqn:E; cbn [Regex.search]; rewrite Hhere;
    unfold Regex.taken; cbn [fmap option_fmap option_map nth];
    by rewrite !string_of_list_ascii_of_string.
Qed.

(** X1: the pair a set-cookie header contributes is clean: the name is
    not empty and holds no [=], the value is not empty and holds no [;],
    and the header reads name, [=], value at the place of the match. *)
Theorem match_pair_sound (header k v : string) :
  Regex.match_pair header = Some (k, v) →
  k ≠ "" ∧ v ≠ ""
  ∧ Forall (fun c => c ≠ "="%char) (list_ascii_of_string k)
  ∧ Forall (fun c => c ≠ ";"%char) (list_ascii_of_string v)
  ∧ ∃ before after,
      list_ascii_of_string header
      = before ++ list_ascii_of_string k ++ "="%char :: list_ascii_of_string v ++ after.
Proof.
  unfold Regex.match_pair.
  destruct (Regex.search Regex.pair_re (list_ascii_of_string header)) as [m|] eqn:Hs;
    [|discriminate].
  apply search_sound in Hs as (Hall & before & after & Hsub).
  unfold Regex.pair_re in Hall.
  apply Forall2_cons_inv_l in Hall as (w0 & m1 & [Hne0 Hw0] & Hall & ->).
  apply Forall2_cons_inv_l in Hall as (w1 & m2 & [c [-> Hc]] & Hall & ->).
  apply Forall2_cons_inv_l in Hall as (w2 & m3 & [Hne2 Hw2] & Hall & ->).
  apply Forall2_nil_inv_l in Hall as ->.
  unfold Regex.only in Hc. apply Ascii.eqb_eq in Hc as <-.
  unfold Regex.taken. cbn [fmap option_fmap option_map nth]. intros [= <- <-].
  rewrite !list_ascii_of_string_of_list_ascii.
  assert (Hclass : ∀ x l, Forall (fun c => Regex.except x c = true) l →
                          Forall (fun c => c ≠ x) l).
  { intros x l H. eapply Forall_impl; [exact H|]. intros c Hc. unfold Regex.except in Hc.
    apply negb_true_iff, Ascii.eqb_neq in Hc. congruence. }
  assert (Hempty : ∀ l, l ≠ [] → string_of_list_ascii l ≠ "").
  { intros [|c l]; [done|discriminate]. }
  repeat split; auto.
  exists before, after. rewrite Hsub. simpl. by rewrite app_nil_r, <- !app_assoc.
Qed.

(** ** Cookie merge *)

Lemma merged_jar_app (cs cs' : list string) (jar : gmap string string) :
  merged_jar (cs ++ cs') jar = merged_jar cs' (merged_jar cs jar).
Proof. unfold merged_jar. by rewrite fold_left_app. Qed.

Lemma merged_expiry_app (cs cs' : list string) (e : option date) :
  merged_expiry (cs ++ cs') e = merged_expiry cs' (merged_expiry cs e).
Proof. unfold merged_expiry. by rewrite fold_left_app. Qed.

Lemma merged_jar_silent (k : string) (cs : list string) (jar : gmap string string) :
  Forall (silent_on k) cs → merged_jar cs jar !! k = jar !! k.
Proof.
  intros Hcs. revert jar. induction Hcs as [|c cs Hc Hcs IH]; intros jar; [done|].
  change (merged_jar (c :: cs) jar)
    with (merged_jar cs match Regex.match_pair c with
                        | Some (k', v') => <[k':=v']> jar
                        | None => jar
                        end).
  rewrite IH. destruct (Regex.match_pair c) as [[k' v']|] eqn:Hp; [|done].
  apply lookup_insert_ne. intros ->. by apply (Hc v').
Qed.

Lemma merged_jar_keeps (k : string) (cs : list string) (jar : gmap string string) :
  is_Some (jar !! k) → is_Some (merged_jar cs jar !! k).
Proof.
  revert jar. induction cs as [|c cs IH]; intros jar Hk; [done|].
  change (merged_jar (c :: cs) jar)
    with (merged_jar cs match Regex.match_pair c with
                        | Some (k', v') => <[k':=v']> jar
                        | None => jar
                        end).
  apply IH. destruct (Regex.match_pair c) as [[k' v']|]; [|done].
  rewrite lookup_insert. by case_decide.
Qed.

Lemma merged_expiry_silent (cs : list string) (e : option date) :
  Forall (fun c => Regex.match_expires c = None) cs → merged_expiry cs e = e.
Proof.
  intros Hcs. revert e. induction Hcs as [|c cs Hc Hcs IH]; intros e; [done|].
  change (merged_expiry (c :: cs) e)
    with (merged_expiry cs match Regex.match_expires c with
                           | Some x => Some (Date_parse x)
                           | None => e
                           end).
  by rewrite IH, Hc.
Qed.

(** X2: in a merge the last header that names a cookie decides its value:
    when a header gives [k=v] and no later header of the list names [k],
    the merged session holds [v] for [k], whatever it held before. *)
Theorem updateSessionFromCookies_last_write_wins (s : Session)
    (before after : list string) (header k v : string) :
  Regex.match_pair header = Some (k, v) →
  Forall (silent_on k) after →
  cookies (updateSessionFromCookies s (before ++ header :: after)) !! k = Some v.
Proof.
  intros Hpair Hafter. rewrite updateSessionFromCookies_fields. cbn [cookies].
  rewrite merged_jar_app.
  change (merged_jar (header :: after) (merged_jar before (cookies s)))
    with (merged_jar after match Regex.match_pair header with
                           | Some (k', v') => <[k':=v']> (merged_jar before (cookies s))
                           | None => merged_jar before (cookies s)
                           end).
  rewrite Hpair, merged_jar_silent by done. apply lookup_insert_eq.
Qed.

(** X3: a merge only adds and overwrites: a cookie the session holds stays
    held, a cookie no header names keeps its value, and the cached API key
    is not touched. *)
Theorem updateSessionFromCookies_only_adds (s : Session) (cs : list string) :
  (∀ k, is_Some (cookies s !! k) →
        is_Some (cookies (updateSessionFromCookies s cs) !! k)) ∧
  (∀ k, Forall (silent_on k) cs →
        cookies (updateSessionFromCookies s cs) !! k = cookies s !! k) ∧
  apiKey (updateSessionFromCookies s cs) = apiKey s.
Proof.
  rewrite updateSessionFromCookies_fields. cbn [cookies apiKey].
  split; [|split; [|reflexivity]].
  - intros k. apply merged_jar_keeps.
  - intros k. apply merged_jar_silent.
Qed.

(** X4: the cookie expiry after a merge is the date of the last header
    that carries an [expires] attribute, however it parses (no comparison
    with the expiry held or with the other headers); when no header carries
    one, the expiry is as it was. *)
Theorem updateSessionFromCookies_last_expiry_wins (s : Session) :
  (∀ (before after : list string) (header e : string),
     Regex.match_expires header = Some e →
     Forall (fun c => Regex.match_expires c = None) after →
     cookieExpires (updateSessionFromCookies s (before ++ header :: after))
     = Some (Date_parse e)) ∧
  (∀ cs : list string,
     Forall (fun c => Regex.match_expires c = None) cs →
     cookieExpires (updateSessionFromCookies s cs) = cookieExpires s).
Proof.
  split.
  - intros before after header e He Hafter.
    rewrite updateSessionFromCookies_fields. cbn [cookieExpires].
    rewrite merged_expiry_app.
    change (merged_expiry (header :: after) (merged_expiry before (cookieExpires s)))
      with (merged_expiry after match Regex.match_expires header with
                                | Some x => Some (Date_parse x)
                                | None => merged_expiry before (cookieExpires s)
                                end).
    by rewrite He, merged_expiry_silent.
  - intros cs Hcs. rewrite updateSessionFromCookies_fields. cbn [cookieExpires].
    by apply merged_expiry_silent.
Qed.

(** X5: a header that starts with [name=value], where the name is not
    empty and holds no [=], the value is not empty and holds no [;], and
    what follows is nothing or [;] and attributes, stores the value under
    the name: the attributes (also an [Expires=] one) are not taken for the
    pair. *)
Theorem updateSessionFromCookies_stores_pair (s : Session) (before : list string)
    (k v attributes : string) :
  k ≠ "" → v ≠ "" →
  Forall (fun c => c ≠ "="%char) (list_ascii_of_string k) →
  Forall (fun c => c ≠ ";"%char) (list_ascii_of_string v) →
  ends_or_meets ";" attributes →
  cookies (updateSessionFromCookies s (before ++ [k +:+ "=" +:+ v +:+ attributes])) !! k
  = Some v.
Proof.
  intros Hk Hv Hkc Hvc Hrest. rewrite updateSessionFromCookies_fields. cbn [cookies].
  rewrite merged_jar_app. unfold merged_jar at 1. cbn [fold_left].
  rewrite (match_pair_complete k v attributes) by done. apply lookup_insert_eq.
Qed.

(** ** Requests and the API key *)

(** X6: cookies make the round trip: the request after a response carries
    the jar with the [set-cookie] headers of that response merged in, also
    when the body of the response was no JSON; after a rejected [fetch] it
    carries the jar unchanged. *)
Theorem getJson_sends_merged_cookies (url1 url2 : string) (init1 init2 : request_init)
    (w : World) :
  let rq1 := mkRequest url1 init1 (cookies (session w)) in
  let w2 := snd (getJson url2 init2 (snd (getJson url1 init1 w))) in
  (∀ dt cs body js,
     net w (length (requests w)) = Response dt cs body js →
     requests w2
     = requests w ++ [rq1; mkRequest url2 init2 (merged_jar cs (cookies (session w)))]) ∧
  (∀ x,
     net w (length (requests w)) = Rejection x →
     requests w2 = requests w ++ [rq1; mkRequest url2 init2 (cookies (session w))]).
Proof.
  cbn zeta. rewrite (getJson_run url1 init1 w). cbn zeta. split.
  - intros dt cs body js Hnet. rewrite Hnet. clear Hnet. cbn [snd].
    rewrite getJson_run. cbn zeta.
    cbn [session credentials device log now net requests sockets wire].
    rewrite updateSessionFromCookies_fields. cbn [cookies].
    destruct (net w _) as [dt' cs' body' js'|x]; cbn [snd requests];
      by rewrite <- app_assoc.
  - intros x Hnet. rewrite Hnet. clear Hnet. cbn [snd].
    rewrite getJson_run. cbn zeta.
    cbn [session credentials device log now net requests sockets wire].
    destruct (net w _) as [dt' cs' body' js'|x']; cbn [snd requests];
      by rewrite <- app_assoc.
Qed.

(** What a call of [getApiKey] that has to log in leaves in the session. *)
Lemma getApiKey_session (w : World) :
  cached (session w) (Valid (now w)) = false →
  let s' := session (snd (getApiKey w)) in
  match net w (length (requests w)) with
  | Response dt cs body js =>
      cookies s' = merged_jar cs (cookies (session w))
      ∧ cookieExpires s' = merged_expiry cs (cookieExpires (session w))
  | Rejection x => s' = session w
  end.
Proof.
  intros H. cbn zeta. rewrite (getApiKey_run w H). cbn zeta. rewrite getJson_run. cbn zeta.
  cbn [logged session credentials device log now net requests sockets wire].
  destruct (net w (length (requests w))) as [dt cs body [doc|]|x]; cbn [snd session];
    try (rewrite updateSessionFromCookies_fields; done); try done.
  destruct (nullish doc); cbn [snd session];
    [rewrite updateSessionFromCookies_fields; done|].
  destruct (is_string _ || _); cbn [snd session with_session];
    rewrite updateSessionFromCookies_fields; done.
Qed.

(** X7: [getApiKey] never stores a falsy key and never clears one: when it
    returns, the key returned is truthy and is the key the session holds;
    when it throws, the session holds the key it held before. *)
Theorem getApiKey_key_after (w : World) :
  match fst (getApiKey w) with
  | Return key => truthy key = true ∧ apiKey (session (snd (getApiKey w))) = key
  | _ => apiKey (session (snd (getApiKey w))) = apiKey (session w)
  end.
Proof.
  destruct (getApiKey w) as [[key|x|] w1] eqn:Hrun; cbn [fst snd].
  - by apply (getApiKey_Return w).
  - destruct (cached (session w) (Valid (now w))) eqn:H.
    + rewrite (getApiKey_cached w H) in Hrun. discriminate.
    + revert Hrun. rewrite (getApiKey_run w H). cbn zeta. rewrite getJson_run. cbn zeta.
      cbn [logged session credentials device log now net requests sockets wire].
      destruct (net w (length (requests w))) as [dt cs body [doc|]|x'];
        try (intros [= <- <-]; cbn [session];
             rewrite ?updateSessionFromCookies_fields; reflexivity).
      destruct (nullish doc);
        [intros [= <- <-]; cbn [session];
         by rewrite updateSessionFromCookies_fields|].
      destruct (is_string _ || _); [|discriminate].
      intros [= <- <-]. cbn [session]. by rewrite updateSessionFromCookies_fields.
  - destruct (cached (session w) (Valid (now w))) eqn:H.
    + rewrite (getApiKey_cached w H) in Hrun. discriminate.
    + revert Hrun. rewrite (getApiKey_run w H). cbn zeta. rewrite getJson_run. cbn zeta.
      destruct (net _ _) as [dt cs body [doc|]|x']; try discriminate.
      destruct (nullish doc); [discriminate|].
      destruct (is_string _ || _); discriminate.
Qed.

(** X8: the failures of the login besides the rejected credentials: a
    rejected [fetch] is thrown on as it is, a body that is no JSON throws
    the SyntaxError of [JSON.parse], and a body that parses to [null] throws
    the TypeError of the read of [result]. *)
Theorem getApiKey_login_failures (w : World) :
  cached (session w) (Valid (now w)) = false →
  (∀ x, net w (length (requests w)) = Rejection x →
        fst (getApiKey w) = Throw (FetchError x)) ∧
  (∀ dt cs body, net w (length (requests w)) = Response dt cs body None →
                 fst (getApiKey w) = Throw SyntaxError) ∧
  (∀ dt cs body, net w (length (requests w)) = Response dt cs body (Some Null) →
                 fst (getApiKey w) = Throw (TypeError "result")).
Proof.
  intros H. rewrite (getApiKey_run w H). cbn zeta. rewrite getJson_run. cbn zeta.
  cbn [logged session credentials device log now net requests sockets wire].
  repeat split; intros; by match goal with Hn : net _ _ = _ |- _ => rewrite Hn end.
Qed.

(** X9: the key is reused only under a valid cookie expiry: with no expiry
    in the session, or with one that is an Invalid Date, [getApiKey] logs
    in; and when the session has no expiry and the answer to the login
    sets none, the next call logs in again. *)
Theorem getApiKey_needs_expiry (w : World) :
  (cookieExpires (session w) = None ∨ cookieExpires (session w) = Some InvalidDate →
   requests (snd (getApiKey w)) = requests w ++ [login_request w]) ∧
  (cookieExpires (session w) = None →
   (∀ dt cs body js,
      net w (length (requests w)) = Response dt cs body js →
      Forall (fun c => Regex.match_expires c = None) cs) →
   let w1 := snd (getApiKey w) in
   requests (snd (getApiKey w1)) = requests w ++ [login_request w; login_request w1]).
Proof.
  assert (Hmiss : ∀ w0 : World,
            cookieExpires (session w0) = None ∨ cookieExpires (session w0) = Some InvalidDate →
            cached (session w0) (Valid (now w0)) = false).
  { intros w0 [He|He]; unfold cached; rewrite He; apply andb_false_r. }
  split.
  - intros He. by apply getApiKey_requests, Hmiss.
  - intros He Hcs. cbn zeta.
    pose proof (getApiKey_session w (Hmiss w (or_introl He))) as Hs. cbn zeta in Hs.
    pose proof (getApiKey_requests w (Hmiss w (or_introl He))) as Hr.
    assert (He1 : cookieExpires (session (snd (getApiKey w))) = None).
    { destruct (net w (length (requests w))) as [dt cs body js|x] eqn:Hnet.
      - destruct Hs as [_ ->]. rewrite He. apply merged_expiry_silent.
        by apply (Hcs dt cs body js).
      - by rewrite Hs. }
    rewrite (getApiKey_requests _ (Hmiss _ (or_introl He1))), Hr.
    by rewrite <- app_assoc.
Qed.

(** ** The device list and the choice of a device *)

Lemma find_first {A} (f : A → bool) (before after : list A) (x : A) :
  Forall (fun y => f y = false) before → f x = true →
  List.find f (before ++ x :: after) = Some x.
Proof.
  intros Hb Hx. induction Hb as [|y before Hy _ IH]; simpl; [by rewrite Hx|].
  by rewrite Hy.
Qed.

Lemma find_none_of {A} (f : A → bool) (l : list A) :
  Forall (fun y => f y = false) l → List.find f l = None.
Proof. intros Hl. induction Hl as [|y l Hy _ IH]; simpl; [done|]. by rewrite Hy. Qed.

(** X10: [getDevicesRaw] returns the elements of [result] when [result] is
    an array, and otherwise throws: the 'Unauthorized' error with [result]
    rendered as a string (the string itself, [undefined] when the field is
    missing, [[object Object]] for an object) or, when [result] is an
    object with a [toString] property of its own, the TypeError of the
    conversion that builds the message. *)
Theorem getDevicesRaw_outcome (w : World) (dt : N) (cs : list string)
    (body : string) (doc : value) :
  net w (length (requests w)) = Response dt cs body (Some doc) →
  nullish doc = false →
  fst (getDevicesRaw w) =
  match prop doc "result" with
  | Arr entries => Return entries
  | Str text => Throw (Unauthorized text)
  | Undefined => Throw (Unauthorized "undefined")
  | Obj props =>
      if has_own "toString" props then Throw CannotConvert
      else Throw (Unauthorized "[object Object]")
  | result =>
      match to_string result with
      | Some text => Throw (Unauthorized text)
      | None => Throw CannotConvert
      end
  end.
Proof.
  intros Hnet Hdoc. rewrite getDevicesRaw_run, getJson_run. cbn zeta.
  rewrite Hnet, Hdoc. unfold refusal.
  destruct (prop doc "result") as [| |[]|n|text|entries|props|]; try reflexivity.
  cbn [is_string is_array negb orb to_string].
  by destruct (has_own "toString" props).
Qed.

(** [getDeviceId], run on a device without an id once the list is there. *)
Lemma getDeviceId_run (w w1 : World) (ds : list Device) :
  truthy (id (device w)) = false →
  getDevices (logged (mkEntry DEBUG "getDeviceId" NoPayload) w) = (Return ds, w1) →
  let d := device w in
  let d' :=
    Object_assign d
      (if truthy (name d)
       then List.find (fun x => strict_eq (name x) (name d)) ds
       else List.find (fun x => negb (strict_eq (type x) (Str "hub"))) ds) in
  getDeviceId w =
  match to_string (id d') with
  | Some text =>
      (Return tt,
       logged (mkEntry DEBUG ("device.id: " +:+ text) NoPayload) (with_device d' w1))
  | None => (Throw CannotConvert, with_device d' w1)
  end.
Proof.
  intros Hid Hlist. cbn zeta. unfold getDeviceId. step. rewrite Hid. step.
  pose proof (getDevices_device (logged (mkEntry DEBUG "getDeviceId" NoPayload) w)) as Hd.
  rewrite Hlist in Hd. cbn [snd logged device] in Hd. rewrite Hlist.
  step. rewrite Hd, Hid. cbn [negb andb].
  destruct (truthy (name (device w))); step; by destruct (to_string _).
Qed.

(** The device [getDeviceId] leaves, whether or not its last log line could
    be written. *)
Lemma getDeviceId_choice (w w1 : World) (ds : list Device) :
  truthy (id (device w)) = false →
  getDevices (logged (mkEntry DEBUG "getDeviceId" NoPayload) w) = (Return ds, w1) →
  device (snd (getDeviceId w)) =
  Object_assign (device w)
    (if truthy (name (device w))
     then List.find (fun x => strict_eq (name x) (name (device w))) ds
     else List.find (fun x => negb (strict_eq (type x) (Str "hub"))) ds).
Proof.
  intros Hid Hlist. rewrite (getDeviceId_run w w1 ds Hid Hlist). cbn zeta.
  by destruct (to_string _).
Qed.

(** X11: a device known by name is resolved to the first listed device of
    exactly that name, hub or not; when no listed device has the name, the
    device is left as it was, without falling back on a door opener. *)
Theorem getDeviceId_by_name (w w1 : World) (ds : list Device) :
  truthy (id (device w)) = false →
  truthy (name (device w)) = true →
  getDevices (logged (mkEntry DEBUG "getDeviceId" NoPayload) w) = (Return ds, w1) →
  (∀ before x after,
     ds = before ++ x :: after →
     Forall (fun y => strict_eq (name y) (name (device w)) = false) before →
     strict_eq (name x) (name (device w)) = true →
     device (snd (getDeviceId w)) = Object_assign (device w) (Some x)) ∧
  (Forall (fun y => strict_eq (name y) (name (device w)) = false) ds →
   device (snd (getDeviceId w)) = device w).
Proof.
  intros Hid Hname Hlist.
  rewrite (getDeviceId_choice w w1 ds Hid Hlist), Hname. split.
  - intros before x after -> Hbefore Hx.
    by rewrite (find_first (fun y => strict_eq (name y) (name (device w)))).
  - intros Hnone.
    by rewrite (find_none_of (fun y => strict_eq (name y) (name (device w)))).
Qed.

(** X12: a device known by neither id nor name is resolved to the first
    listed device whose type is not hub; when the list holds hubs only (or
    nothing), the device is left as it was. *)
Theorem getDeviceId_first_door_opener (w w1 : World) (ds : list Device) :
  truthy (id (device w)) = false →
  truthy (name (device w)) = false →
  getDevices (logged (mkEntry DEBUG "getDeviceId" NoPayload) w) = (Return ds, w1) →
  (∀ before x after,
     ds = before ++ x :: after →
     Forall (fun y => type y = Str "hub") before →
     type x ≠ Str "hub" →
     device (snd (getDeviceId w)) = Object_assign (device w) (Some x)) ∧
  (Forall (fun y => type y = Str "hub") ds →
   device (snd (getDeviceId w)) = device w).
Proof.
  intros Hid Hname Hlist.
  rewrite (getDeviceId_choice w w1 ds Hid Hlist), Hname.
  assert (Hhubs : ∀ l, Forall (fun y => type y = Str "hub") l →
            Forall (fun y => negb (strict_eq (type y) (Str "hub")) = false) l).
  { intros l Hl. eapply Forall_impl; [exact Hl|]. by intros y ->. }
  split.
  - intros before x after -> Hbefore Hx.
    rewrite (find_first (fun y => negb (strict_eq (type y) (Str "hub")))); auto.
    destruct (type x) as [| | | |t| | |]; try reflexivity.
    simpl. apply negb_true_iff, String.eqb_neq. congruence.
  - intros Hall.
    by rewrite (find_none_of (fun y => negb (strict_eq (type y) (Str "hub")))); auto.
Qed.

(** ** The status query *)

Lemma updateDevice_resolved (w : World) :
  truthy (id (device w)) = true → updateDevice w = queryDevice w.
Proof. intros Hid. unfold updateDevice. step. rewrite Hid. reflexivity. Qed.

(** [queryDevice], run once the key and the status document are there. *)
Lemma queryDevice_run (w w1 w2 : World) (key values : value) (text : string) :
  to_string (id (device w)) = Some text →
  getApiKey w = (Return key, w1) →
  getJson (deviceURL +:+ "/" +:+ text) Get w1 = (Return values, w2) →
  queryDevice w =
  if negb (truthy (prop (prop values "result") "length"))
  then (Throw (InvalidResponse values), w2)
  else if negb (truthy (deviceTypeMap_of values))
  then (Return tt, logged (mkEntry ERROR "deviceTypeMap not found" NoPayload) w2)
  else (Return tt, with_device (assigned values (device w) (now w2)) w2).
Proof.
  intros Htext Hkey Hjson. unfold queryDevice. step. rewrite Htext. step.
  rewrite Hkey. step. rewrite Hjson. step.
  pose proof (getApiKey_device w) as H1. rewrite Hkey in H1. cbn [snd] in H1.
  apply getJson_Return in Hjson as (_ & _ & H2).
  destruct (truthy (prop (prop values "result") "length")); cbn [negb]; [|reflexivity].
  fold (deviceTypeMap_of values).
  destruct (truthy (deviceTypeMap_of values)); cbn [negb]; [|reflexivity].
  rewrite to_string_toNumber. step. rewrite H2, H1. reflexivity.
Qed.

Lemma queryDevice_requests (w w1 : World) (key : value) (text : string) :
  to_string (id (device w)) = Some text →
  getApiKey w = (Return key, w1) →
  requests (snd (queryDevice w))
  = requests w1
    ++ [mkRequest (deviceURL +:+ "/" +:+ text) Get (cookies (session w1))].
Proof.
  intros Htext Hkey. unfold queryDevice. step. rewrite Htext. step.
  rewrite Hkey. step.
  rewrite getJson_run. cbn zeta.
  destruct (net w1 (length (requests w1))) as [dt cs body [values|]|x]; try reflexivity.
  step. destruct (truthy (prop (prop values "result") "length")); cbn [negb];
    [|reflexivity].
  destruct (truthy _); cbn [negb]; [|reflexivity].
  rewrite to_string_toNumber. reflexivity.
Qed.

(** A device whose id has no string form stops the query where the url is
    built, before the key is asked for. *)
Lemma queryDevice_unconvertible (w : World) :
  to_string (id (device w)) = None → queryDevice w = (Throw CannotConvert, w).
Proof. intros Htext. unfold queryDevice. step. by rewrite Htext. Qed.

(** X13: the status request of [updateDevice] goes to the device url
    followed by [/] and the id of the device as a string, with the cookies
    the session holds once the key is there; for a device that the list
    could not resolve, that is the url ending in [/undefined]; and a device
    whose id has no string form (an object with a [toString] property of
    its own) makes the call throw the TypeError of the conversion before
    anything is requested. *)
Theorem updateDevice_status_request (w w1 : World) (key : value) :
  (∀ text,
     truthy (id (device w)) = true →
     to_string (id (device w)) = Some text →
     getApiKey w = (Return key, w1) →
     requests (snd (updateDevice w))
     = requests w1
       ++ [mkRequest (deviceURL +:+ "/" +:+ text) Get (cookies (session w1))]) ∧
  (∀ w0,
     truthy (id (device w)) = false →
     getDeviceId w = (Return tt, w0) →
     id (device w0) = Undefined →
     getApiKey w0 = (Return key, w1) →
     requests (snd (updateDevice w))
     = requests w1
       ++ [mkRequest "https://tti.tiwiconnect.com/api/devices/undefined" Get
                     (cookies (session w1))]) ∧
  (truthy (id (device w)) = true →
   to_string (id (device w)) = None →
   updateDevice w = (Throw CannotConvert, w)).
Proof.
  split; [|split].
  - intros text Hid Htext Hkey. rewrite (updateDevice_resolved w Hid).
    by apply (queryDevice_requests w w1 key).
  - intros w0 Hid Hresolve Hundef Hkey. unfold updateDevice. step.
    rewrite Hid. cbn [negb]. rewrite Hresolve.
    rewrite (queryDevice_requests w0 w1 key "undefined"); [reflexivity| |exact Hkey].
    by rewrite Hundef.
  - intros Hid Htext. rewrite (updateDevice_resolved w Hid).
    by apply queryDevice_unconvertible.
Qed.

(** X14: once the key and a status document are there, [updateDevice]
    throws the 'Invalid response' error carrying the document exactly when
    [result.length] is falsy (no [result], an empty array, an empty string),
    and then leaves the device as it was. *)
Theorem updateDevice_invalid_response (w w1 w2 : World) (key values : value)
    (text : string) :
  truthy (id (device w)) = true →
  to_string (id (device w)) = Some text →
  getApiKey w = (Return key, w1) →
  getJson (deviceURL +:+ "/" +:+ text) Get w1 = (Return values, w2) →
  (fst (updateDevice w) = Throw (InvalidResponse values)
   ↔ truthy (prop (prop values "result") "length") = false) ∧
  (truthy (prop (prop values "result") "length") = false →
   device (snd (updateDevice w)) = device w).
Proof.
  intros Hid Htext Hkey Hjson. rewrite (updateDevice_resolved w Hid).
  rewrite (queryDevice_run w w1 w2 key values text Htext Hkey Hjson).
  pose proof (getApiKey_device w) as H1. rewrite Hkey in H1. cbn [snd] in H1.
  apply getJson_Return in Hjson as (_ & _ & H2).
  destruct (truthy (prop (prop values "result") "length")); cbn [negb].
  - split; [|discriminate].
    destruct (truthy (deviceTypeMap_of values)); cbn [negb fst]; split; discriminate.
  - cbn [fst snd]. split; [done|]. intros _. congruence.
Qed.

Lemma string_result_has_no_map (values : value) (s : string) :
  prop values "result" = Str s → s ≠ "" →
  truthy (prop (prop values "result") "length") = true
  ∧ deviceTypeMap_of values = Undefined.
Proof.
  intros Hresult Hs. unfold deviceTypeMap_of. rewrite Hresult.
  destruct s as [|c s]; [done|]. split; reflexivity.
Qed.

(** X15: a status document whose [result] is a string that is not empty
    (the shape the service gives to a refusal) passes the length guard of
    [updateDevice]: the call logs 'deviceTypeMap not found' and returns,
    with the device as it was; it does not throw. *)
Theorem updateDevice_string_result (w w1 w2 : World) (key values : value)
    (text s : string) :
  truthy (id (device w)) = true →
  to_string (id (device w)) = Some text →
  getApiKey w = (Return key, w1) →
  getJson (deviceURL +:+ "/" +:+ text) Get w1 = (Return values, w2) →
  prop values "result" = Str s → s ≠ "" →
  updateDevice w
  = (Return tt, logged (mkEntry ERROR "deviceTypeMap not found" NoPayload) w2)
  ∧ device w2 = device w.
Proof.
  intros Hid Htext Hkey Hjson Hresult Hs. rewrite (updateDevice_resolved w Hid).
  rewrite (queryDevice_run w w1 w2 key values text Htext Hkey Hjson).
  destruct (string_result_has_no_map values s Hresult Hs) as [-> ->].
  split; [reflexivity|].
  pose proof (getApiKey_device w) as H1. rewrite Hkey in H1. cbn [snd] in H1.
  apply getJson_Return in Hjson as (_ & _ & H2). congruence.
Qed.

(** X16: when the [deviceTypeMap] holds no garage-door module, the call
    returns with [moduleId] and [portId] undefined and the stamp set; the
    state is then read under the key [garageDoor_undefined], so it is
    undefined too unless the map has an entry of that name. *)
Theorem updateDevice_without_door_module (w w1 w2 : World) (key values : value)
    (text : string) :
  truthy (id (device w)) = true →
  to_string (id (device w)) = Some text →
  getApiKey w = (Return key, w1) →
  getJson (deviceURL +:+ "/" +:+ text) Get w1 = (Return values, w2) →
  truthy (prop (prop values "result") "length") = true →
  truthy (deviceTypeMap_of values) = true →
  Forall (fun m => is_garageDoorModule m = false)
         (object_values (deviceTypeMap_of values)) →
  let d' := device (snd (updateDevice w)) in
  fst (updateDevice w) = Return tt
  ∧ moduleId d' = Undefined ∧ portId d' = Undefined
  ∧ state d'
    = toNumber (attribute (prop (deviceTypeMap_of values) "garageDoor_undefined")
                          "doorState")
  ∧ (prop (deviceTypeMap_of values) "garageDoor_undefined" = Undefined →
     state d' = Undefined)
  ∧ stateAsOf d' = Num (Int (now w2)).
Proof.
  intros Hid Htext Hkey Hjson Hlen Hmap Hnone. cbn zeta.
  rewrite (updateDevice_resolved w Hid).
  rewrite (queryDevice_run w w1 w2 key values text Htext Hkey Hjson), Hlen, Hmap.
  cbn [negb fst snd with_device device].
  unfold assigned, garageDoorModule_of. rewrite (find_none_of _ _ Hnone).
  cbn [default moduleId portId state stateAsOf].
  repeat split. intros Habsent.
  change (toNumber (attribute (prop (deviceTypeMap_of values) "garageDoor_undefined")
                              "doorState") = Undefined).
  by rewrite Habsent.
Qed.

(** X17: when the [deviceTypeMap] holds garage-door modules, the first one
    in the order of the map gives [portId] and [moduleId] (each undefined
    when its value is no number), and the state is read from the entry of
    the map named [garageDoor_] followed by that port, as a string. *)
Theorem updateDevice_first_door_module (w w1 w2 : World) (key values : value)
    (text : string) (before after : list value) (m : value) :
  truthy (id (device w)) = true →
  to_string (id (device w)) = Some text →
  getApiKey w = (Return key, w1) →
  getJson (deviceURL +:+ "/" +:+ text) Get w1 = (Return values, w2) →
  truthy (prop (prop values "result") "length") = true →
  truthy (deviceTypeMap_of values) = true →
  object_values (deviceTypeMap_of values) = before ++ m :: after →
  Forall (fun m' => is_garageDoorModule m' = false) before →
  is_garageDoorModule m = true →
  let d' := device (snd (updateDevice w)) in
  fst (updateDevice w) = Return tt
  ∧ portId d' = toNumber (attribute m "portId")
  ∧ moduleId d' = toNumber (attribute m "moduleId")
  ∧ ∃ port,
      to_string (portId d') = Some port
      ∧ state d'
        = toNumber (attribute (prop (deviceTypeMap_of values) ("garageDoor_" +:+ port))
                              "doorState").
Proof.
  intros Hid Htext Hkey Hjson Hlen Hmap Hvalues Hbefore Hm. cbn zeta.
  rewrite (updateDevice_resolved w Hid).
  rewrite (queryDevice_run w w1 w2 key values text Htext Hkey Hjson), Hlen, Hmap.
  cbn [negb fst snd with_device device].
  unfold assigned, garageDoorModule_of. rewrite Hvalues, (find_first _ _ _ _ Hbefore Hm).
  cbn [default moduleId portId state]. repeat split.
  eexists. split; [apply to_string_toNumber|reflexivity].
Qed.

(** ** The door state *)

(** X18: when the status document holds no [deviceTypeMap], [getStatus]
    answers from the state the device carried into the call: the early
    return of [updateDevice] leaves that state in place. *)
Theorem getStatus_answers_from_earlier_state (w w' : World) (values : value)
    (code : number) :
  updateDevice (logged (mkEntry DEBUG "Updating ryobi data" NoPayload) w)
    = (Return tt, w') →
  last_document w' = Some values →
  truthy (deviceTypeMap_of values) = false →
  state (device w) = Num code →
  getStatus w = (Return (map_get doorStateMap (Num code)), w').
Proof.
  intros Hrun Hlast Hmap Hstate.
  pose proof (updateDevice_device
                (logged (mkEntry DEBUG "Updating ryobi data" NoPayload) w))
    as (source & Hsource & Heffect).
  cbn zeta in Heffect. rewrite Hrun in Heffect. cbn [fst snd logged device] in Heffect.
  destruct (Object_assign_kept (device w) source Hsource) as (_ & _ & _ & Hkeep & _).
  assert (Hsame : state (device w') = Num code).
  { destruct Heffect as [[Hdev _]|[_ (values' & Hlast' & Hmap' & _)]].
    - by rewrite Hdev, Hkeep.
    - congruence. }
  unfold getStatus. step. rewrite Hrun. step. by rewrite Hsame.
Qed.

(** ** The command channel, further *)

Lemma emit_http_side (key message : value) (ev : ws_event) (ch : channel) (w : World) :
  http_side (snd (emit key message ev ch w)) = http_side w
  ∧ credentials (snd (emit key message ev ch w)) = credentials w.
Proof.
  destruct ev as [|data [doc|]| | |x]; simpl;
    unfold on_open, on_message, on_pong, on_close, on_error; step; try done.
  - destruct (nullish doc); [done|]. step.
    destruct (truthy (prop (prop doc "result") "authorized")); done.
  - destruct (complete ch); done.
Qed.

Lemma await_promise_http_side (key message : value) (evs : list ws_event)
    (ch : channel) (w : World) :
  http_side (snd (await_promise key message evs ch w)) = http_side w
  ∧ credentials (snd (await_promise key message evs ch w)) = credentials w.
Proof.
  revert ch w. induction evs as [|ev evs IH]; intros ch w; simpl.
  - by destruct (outcome_of ch).
  - destruct (outcome_of ch); [|done..].
    pose proof (emit_http_side key message ev ch w) as [H1 H2].
    destruct (emit key message ev ch w) as [[ch'|x|] w']; simpl in H1, H2; try done.
    destruct (IH ch' w') as [H3 H4]. split; congruence.
Qed.

(** X19: the listeners of the command channel live on the socket alone:
    whatever the connection emits, awaiting the command makes no HTTP
    request and leaves the session, the device and the clock as they
    were. *)
Theorem await_promise_keeps_http_side (key message : value) (evs : list ws_event)
    (ch : channel) (w : World) :
  let w' := snd (await_promise key message evs ch w) in
  session w' = session w ∧ device w' = device w
  ∧ requests w' = requests w ∧ now w' = now w.
Proof.
  cbn zeta. destruct (await_promise_http_side key message evs ch w) as [H _].
  unfold http_side in H. by injection H.
Qed.

Lemma emit_unauthorizing (key message : value) (ev : ws_event) (ch : channel) (w : World) :
  unauthorizing ev = true →
  ∃ sent,
    wire (snd (emit key message ev ch w)) = wire w ++ sent
    ∧ Forall (fun a => a = Send (login_frame (credentials w) key) ∨ a = Terminate) sent.
Proof.
  destruct ev as [|data [doc|]| | |x]; simpl;
    unfold on_open, on_message, on_pong, on_close, on_error; step.
  - intros _. exists [Send (login_frame (credentials w) key)]. split; [done|].
    constructor; [by left|constructor].
  - unfold authorized. intros Hno. destruct (nullish doc) eqn:Hdoc.
    + exists []. by rewrite app_nil_r.
    + step. cbn [negb andb] in Hno. apply negb_true_iff in Hno. rewrite Hno.
      exists []. by rewrite app_nil_r.
  - intros _. exists []. by rewrite app_nil_r.
  - intros _. exists [Terminate]. split; [done|]. constructor; [by right|constructor].
  - intros _. destruct (complete ch); exists []; by rewrite app_nil_r.
  - intros _. exists []. by rewrite app_nil_r.
Qed.

Lemma await_promise_unauthorized_wire (key message : value)
    (evs : list ws_event) (ch : channel) (w : World) :
  forallb unauthorizing evs = true →
  ∃ sent,
    wire (snd (await_promise key message evs ch w)) = wire w ++ sent
    ∧ Forall (fun a => a = Send (login_frame (credentials w) key) ∨ a = Terminate) sent.
Proof.
  revert ch w. induction evs as [|ev evs IH]; intros ch w Hevs; simpl.
  - exists []. rewrite app_nil_r. by destruct (outcome_of ch).
  - simpl in Hevs. apply andb_prop in Hevs as [Hev Hevs].
    destruct (outcome_of ch); [|exists []; by rewrite app_nil_r..].
    destruct (emit_unauthorizing key message ev ch w Hev) as (s1 & Hw1 & Hs1).
    pose proof (emit_http_side key message ev ch w) as [_ Hc].
    destruct (emit key message ev ch w) as [[ch'|x|] w']; simpl in Hw1, Hc;
      try (exists s1; done).
    destruct (IH ch' w' Hevs) as (s2 & Hw2 & Hs2).
    exists (s1 ++ s2). rewrite Hw2, Hw1, app_assoc. split; [done|].
    apply Forall_app. split; [done|]. by rewrite <- Hc.
Qed.

(** X20: no command without authorization: as long as the connection
    emits no authorized message, the only frames written to the socket are
    the login frame and the terminate of a pong: no command frame, no
    ping. *)
Theorem await_promise_no_command_unauthorized (key message : value)
    (evs : list ws_event) (ch : channel) (w : World) :
  forallb unauthorizing evs = true →
  ∃ sent,
    wire (snd (await_promise key message evs ch w)) = wire w ++ sent
    ∧ Forall (fun a => a ≠ Ping ∧ a ≠ Send (command_frame (device w) message)
                       ∧ (a = Send (login_frame (credentials w) key) ∨ a = Terminate))
             sent.
Proof.
  intros (sent & Hwire & Hall)%(await_promise_unauthorized_wire key message evs ch w).
  exists sent. split; [exact Hwire|].
  eapply Forall_impl; [exact Hall|]. intros a [->| ->]; repeat split; auto; discriminate.
Qed.

Lemma forallb_preliminary_unauthorizing (pre : list ws_event) :
  forallb preliminary pre = true → forallb unauthorizing pre = true.
Proof.
  induction pre as [|ev pre IH]; simpl; [done|].
  intros [Hev Hpre]%andb_prop. rewrite (IH Hpre), andb_true_r.
  destruct ev as [|data [doc|]| | |x]; try done.
  simpl in *. by apply andb_prop in Hev as [_ ->].
Qed.

(** A settled outcome does not depend on what the connection emits
    afterwards. *)
Lemma await_promise_extend (key message : value) (evs more : list ws_event)
    (ch : channel) (w : World) :
  fst (await_promise key message evs ch w) ≠ Never →
  await_promise key message (evs ++ more) ch w = await_promise key message evs ch w.
Proof.
  revert ch w. induction evs as [|ev evs IH]; intros ch w; simpl.
  - destruct ch as [c [| |x]]; simpl; [done| |].
    + intros _. apply await_promise_settled.
    + intros _. apply await_promise_settled.
  - destruct (outcome_of ch); [|done..].
    destruct (emit key message ev ch w) as [[ch'|x|] w']; [apply IH|done..].
Qed.

(** X21: a pong resolves the operation whether or not the command was
    sent: when a pong follows the preliminaries, the awaited operation
    returns although only the login frame and the terminate were written
    to the socket. *)
Theorem await_promise_pong_without_command (key message : value)
    (pre rest : list ws_event) (w : World) :
  forallb preliminary pre = true →
  ∃ w' sent,
    await_promise key message (pre ++ Pong :: rest) (mkChannel false Pending) w
    = (Return tt, w')
    ∧ wire w' = wire w ++ sent
    ∧ Forall (fun a => a = Send (login_frame (credentials w) key) ∨ a = Terminate) sent.
Proof.
  intros Hpre.
  destruct (await_promise_preliminary key message pre [Pong] false w Hpre)
    as (w1 & s1 & Hrun & Hwire & _).
  destruct (on_pong_settles (mkChannel false Pending) w1) as (w2 & Hpong & Hwire2).
  assert (Hout : await_promise key message (pre ++ [Pong])
                   (mkChannel false Pending) w = (Return tt, w2)).
  { rewrite Hrun. simpl in Hpong.
    erewrite await_promise_cons; [|reflexivity|exact Hpong].
    apply await_promise_settled. }
  destruct (await_promise_unauthorized_wire key message
              (pre ++ [Pong]) (mkChannel false Pending) w) as (sent & Hsent & Hall).
  { rewrite forallb_app. simpl. rewrite andb_true_r.
    by apply forallb_preliminary_unauthorizing. }
  rewrite Hout in Hsent. exists w2, sent. split; [|done].
  change (pre ++ Pong :: rest) with (pre ++ [Pong] ++ rest).
  rewrite app_assoc, await_promise_extend; [exact Hout|]. by rewrite Hout.
Qed.

(** X22: an error event rejects the pending operation with its cause, be
    it before the authorization or after the command was sent. *)
Theorem await_promise_error_rejects (key message : value) (data : string) (doc : value)
    (pre rest : list ws_event) (x : string) (w : World) :
  forallb preliminary pre = true →
  authorized doc = true →
  (∃ w', await_promise key message (pre ++ Error x :: rest) (mkChannel false Pending) w
         = (Throw (WebSocketError x), w')) ∧
  (∃ w', await_promise key message (pre ++ Message data (Some doc) :: Error x :: rest)
           (mkChannel false Pending) w
         = (Throw (WebSocketError x), w')
       ∧ In (Send (command_frame (device w) message)) (wire w')).
Proof.
  intros Hpre Hauth. split.
  - destruct (await_promise_preliminary key message pre (Error x :: rest) false w Hpre)
      as (w1 & s1 & -> & _).
    eexists. erewrite await_promise_cons; [|reflexivity|].
    + apply await_promise_settled.
    + unfold emit, on_error. step. reflexivity.
  - destruct (await_promise_preliminary key message pre
                (Message data (Some doc) :: Error x :: rest) false w Hpre)
      as (w1 & s1 & -> & Hwire & Hdev).
    destruct (on_message_authorized message data doc (mkChannel false Pending) w1 Hauth)
      as (w2 & Hmsg & Hwire2 & _).
    simpl in Hmsg. eexists. split.
    + erewrite await_promise_cons; [|reflexivity|exact Hmsg].
      erewrite await_promise_cons; [|reflexivity|].
      * apply await_promise_settled.
      * unfold emit, on_error. step. reflexivity.
    + cbn [wire logged]. rewrite Hwire2, Hdev. apply in_or_app. right. by left.
Qed.

Lemma await_promise_idle (key message : value) (evs : list ws_event) (w : World) :
  forallb idle evs = true →
  fst (await_promise key message evs (mkChannel true Pending) w) = Never.
Proof.
  revert w. induction evs as [|ev evs IH]; intros w Hevs; [done|].
  simpl in Hevs. apply andb_prop in Hevs as [Hev Hevs].
  destruct ev as [|data parsed| | |x]; try discriminate.
  - destruct (emit_preliminary key message Open (mkChannel true Pending) w Hev)
      as (w' & s & He & _).
    erewrite await_promise_cons; [|reflexivity|exact He]. by apply IH.
  - destruct (emit_preliminary key message (Message data parsed)
                (mkChannel true Pending) w Hev) as (w' & s & He & _).
    erewrite await_promise_cons; [|reflexivity|exact He]. by apply IH.
  - erewrite await_promise_cons; [|reflexivity|].
    + by apply IH.
    + unfold emit, on_close. step. reflexivity.
Qed.

(** X23: once the command is sent, only a pong or an error settles the
    operation: when the connection, after the authorized message, emits
    nothing but close events and preliminaries, the awaited operation never
    resumes. *)
Theorem await_promise_close_after_command (key message : value) (data : string)
    (doc : value) (pre tail : list ws_event) (w : World) :
  forallb preliminary pre = true →
  authorized doc = true →
  forallb idle tail = true →
  fst (await_promise key message (pre ++ Message data (Some doc) :: tail)
         (mkChannel false Pending) w) = Never.
Proof.
  intros Hpre Hauth Htail.
  destruct (await_promise_preliminary key message pre
              (Message data (Some doc) :: tail) false w Hpre) as (w1 & s1 & -> & _).
  destruct (on_message_authorized message data doc (mkChannel false Pending) w1 Hauth)
    as (w2 & Hmsg & _).
  simpl in Hmsg. erewrite await_promise_cons; [|reflexivity|exact Hmsg].
  by apply await_promise_idle.
Qed.

(** X24: the command is sent for every authorized message, not for the
    first one only: two authorized messages before the pong put two command
    frames, each followed by its ping, on the socket. *)
Theorem await_promise_repeats_command (key message : value) (data1 data2 : string)
    (doc1 doc2 : value) (pre rest : list ws_event) (w : World) :
  forallb preliminary pre = true →
  authorized doc1 = true →
  authorized doc2 = true →
  ∃ w' sent,
    await_promise key message
      (pre ++ Message data1 (Some doc1) :: Message data2 (Some doc2) :: Pong :: rest)
      (mkChannel false Pending) w = (Return tt, w')
    ∧ wire w' = wire w ++ sent
                ++ [Send (command_frame (device w) message); Ping;
                    Send (command_frame (device w) message); Ping; Terminate].
Proof.
  intros Hpre Hauth1 Hauth2.
  destruct (await_promise_preliminary key message pre
              (Message data1 (Some doc1) :: Message data2 (Some doc2) :: Pong :: rest)
              false w Hpre) as (w1 & sent & -> & Hwire & Hdev).
  destruct (on_message_authorized message data1 doc1 (mkChannel false Pending) w1 Hauth1)
    as (w2 & Hmsg1 & Hwire2 & Hdev2).
  destruct (on_message_authorized message data2 doc2 (mkChannel true Pending) w2 Hauth2)
    as (w3 & Hmsg2 & Hwire3 & _).
  destruct (on_pong_settles (mkChannel true Pending) w3) as (w4 & Hpong & Hwire4).
  simpl in Hmsg1, Hmsg2, Hpong. exists w4, sent. split.
  - erewrite await_promise_cons; [|reflexivity|exact Hmsg1].
    erewrite await_promise_cons; [|reflexivity|exact Hmsg2].
    erewrite await_promise_cons; [|reflexivity|exact Hpong].
    apply await_promise_settled.
  - rewrite Hwire4, Hwire3, Hwire2, Hwire, Hdev2, Hdev, <- !app_assoc. reflexivity.
Qed.

(** ** The two sides of a command *)

Lemma getJson_socket_side (url : string) (init : request_init) (w : World) :
  socket_side (snd (getJson url init w)) = socket_side w.
Proof.
  rewrite getJson_run. cbn zeta.
  destruct (net w (length (requests w))) as [dt cs body js|x]; reflexivity.
Qed.

Lemma getApiKey_socket_side (w : World) :
  socket_side (snd (getApiKey w)) = socket_side w.
Proof.
  destruct (cached (session w) (Valid (now w))) eqn:H.
  - by rewrite (getApiKey_cached w H).
  - rewrite (getApiKey_run w H). cbn zeta.
    pose proof (getJson_socket_side apikeyURL
      (PostLogin (email (credentials w)) (password (credentials w)))
      (logged (mkEntry DEBUG "getApiKey" NoPayload) w)) as Hs.
    destruct (getJson _ _ _) as [[doc|x|] w1]; simpl in Hs; try exact Hs.
    destruct (nullish doc); [exact Hs|].
    destruct (is_string _ || _); exact Hs.
Qed.

Lemma getDevices_socket_side (w : World) :
  socket_side (snd (getDevices w)) = socket_side w.
Proof.
  unfold getDevices. rewrite bind_run.
  pose proof (getApiKey_socket_side w) as H0.
  destruct (getApiKey w) as [[key|x|] w0]; simpl in H0; try exact H0.
  rewrite bind_run, getDevicesRaw_run.
  pose proof (getJson_socket_side deviceURL Get w0) as H1.
  destruct (getJson _ _ _) as [[doc|x|] w1]; simpl in H1;
    try (simpl; congruence).
  destruct (nullish doc); [simpl; congruence|].
  destruct (is_string _ || _); [simpl; congruence|].
  rewrite (proj1 (map_listed_run _ w1)). congruence.
Qed.

Lemma getDeviceId_socket_side (w : World) :
  socket_side (snd (getDeviceId w)) = socket_side w.
Proof.
  unfold getDeviceId. step.
  destruct (truthy (id (device w))); [done|]. step.
  match goal with |- context [getDevices ?W] => set (w0 := W) end.
  pose proof (getDevices_socket_side w0) as Hs.
  destruct (getDevices w0) as [[ds|x|] w1]; simpl in Hs; try exact Hs.
  destruct (negb (truthy (id (device w1))) && truthy (name (device w1))); step;
    by destruct (to_string _).
Qed.

Lemma queryDevice_socket_side (w : World) :
  socket_side (snd (queryDevice w)) = socket_side w.
Proof.
  unfold queryDevice. step.
  destruct (to_string (id (device w))) as [text|]; [|reflexivity]. step.
  pose proof (getApiKey_socket_side w) as H0.
  destruct (getApiKey w) as [[key|x|] w0]; simpl in H0; try exact H0.
  match goal with |- context [getJson ?u Get w0] => set (queryUri := u) end.
  pose proof (getJson_socket_side queryUri Get w0) as H1.
  destruct (getJson queryUri Get w0) as [[values|x|] w1]; simpl in H1;
    try (simpl; congruence).
  destruct (truthy (prop (prop values "result") "length")); cbn [negb];
    [|simpl; congruence].
  destruct (truthy _); cbn [negb]; rewrite ?to_string_toNumber;
    unfold socket_side in *; simpl; congruence.
Qed.

Lemma updateDevice_socket_side (w : World) :
  socket_side (snd (updateDevice w)) = socket_side w.
Proof.
  unfold updateDevice. step.
  destruct (truthy (id (device w))); cbn [negb].
  - step. apply queryDevice_socket_side.
  - pose proof (getDeviceId_socket_side w) as H0.
    destruct (getDeviceId w) as [[[]|x|] w1]; simpl in H0; try exact H0.
    rewrite <- H0. apply queryDevice_socket_side.
Qed.

Lemma resolve_addressing_socket_side (w : World) :
  socket_side (snd (resolve_addressing w)) = socket_side w.
Proof.
  unfold resolve_addressing. step.
  destruct (negb _ || negb _); [apply updateDevice_socket_side|reflexivity].
Qed.

(** X25: a command to a device whose identifiers are resolved, under a
    valid cached key, is a matter of the socket alone: whatever the
    connection emits, the call makes no HTTP request and leaves the session
    and the device as they were. *)
Theorem sendWebsocketCommand_without_http (message : value) (w : World) :
  truthy (moduleId (device w)) = true →
  truthy (portId (device w)) = true →
  cached (session w) (Valid (now w)) = true →
  let w' := snd (sendWebsocketCommand message w) in
  requests w' = requests w ∧ session w' = session w ∧ device w' = device w.
Proof.
  intros Hm Hp Hkey. cbn zeta.
  rewrite (sendWebsocketCommand_run message _ w _ Hm Hp (getApiKey_cached w Hkey)).
  match goal with |- context [await_promise ?k ?m ?e ?c ?W] =>
    pose proof (await_promise_http_side k m e c W) as [Hside _];
    destruct (await_promise k m e c W) as [[[]|x|] w']
  end; unfold http_side, new_WebSocket in Hside;
    cbn [snd logged session device requests now] in Hside;
    injection Hside as Hs Hd Hr _;
    cbn [snd logged session device requests]; done.
Qed.

(** X26: no connection without an address: when the query that opens
    [sendWebsocketCommand] fails, or leaves [moduleId] or [portId] falsy,
    the call ends there without returning, and neither opens a connection
    nor writes to a socket. *)
Theorem sendWebsocketCommand_unaddressed (message : value) (w : World) :
  let w1 := snd (resolve_addressing w) in
  fst (resolve_addressing w) ≠ Return tt
  ∨ truthy (moduleId (device w1)) = false
  ∨ truthy (portId (device w1)) = false →
  snd (sendWebsocketCommand message w) = w1
  ∧ (∀ u, fst (sendWebsocketCommand message w) ≠ Return u)
  ∧ sockets w1 = sockets w ∧ wire w1 = wire w.
Proof.
  cbn zeta. intros Hcase.
  pose proof (resolve_addressing_socket_side w) as Hside.
  unfold socket_side in Hside. injection Hside as Hsockets Hwire.
  split; [|split; [|done]]; unfold sendWebsocketCommand; step;
    destruct (resolve_addressing w) as [[[]|x|] w1]; cbn [fst snd] in *;
    try done;
    destruct Hcase as [Hcase|[Hcase|Hcase]]; try done;
    rewrite ?Hcase; cbn [negb]; try done;
    destruct (truthy (moduleId (device w1))); cbn [negb]; try done;
    rewrite ?Hcase; done.
Qed.

(** X27: [openDoor] sends [{doorCommand: 1}] and [closeDoor] sends
    [{doorCommand: 0}], addressed with the device's [moduleId], [portId] and
    [id]: on a resolved device under a valid cached key, when the
    connection emits its preliminaries, an authorized message and a pong,
    each returns with its command frame, the ping and the terminate as the
    last socket writes.  The command frame is the request of method
    [gdoModuleCommand] with the message type 16, the [moduleId] as module
    type, the [portId], the door command as module message and the [id] as
    topic. *)
Theorem openDoor_closeDoor_frames (data : string) (doc : value)
    (pre rest : list ws_event) (later : list (list ws_event)) (w : World) :
  truthy (moduleId (device w)) = true →
  truthy (portId (device w)) = true →
  cached (session w) (Valid (now w)) = true →
  sockets w = (pre ++ Message data (Some doc) :: Pong :: rest) :: later →
  forallb preliminary pre = true →
  authorized doc = true →
  let command (doorCommand : Z) :=
    Obj [("jsonrpc", Str "2.0"); ("method", Str "gdoModuleCommand");
         ("params", Obj [("msgType", Num (Int 16));
                         ("moduleType", moduleId (device w));
                         ("portId", portId (device w));
                         ("moduleMsg", Obj [("doorCommand", Num (Int doorCommand))]);
                         ("topic", id (device w))])] in
  (∃ w' sent,
     openDoor w = (Return tt, w')
     ∧ wire w' = wire w ++ sent ++ [Send (command 1); Ping; Terminate]) ∧
  (∃ w' sent,
     closeDoor w = (Return tt, w')
     ∧ wire w' = wire w ++ sent ++ [Send (command 0); Ping; Terminate]).
Proof.
  intros Hm Hp Hkey Hsockets Hpre Hauth command.
  assert (Hsend : ∀ (message : value) (e : entry),
            ∃ w' sent,
              sendWebsocketCommand message (logged e w)
              = (Return tt, w')
              ∧ wire w' = wire w ++ sent
                          ++ [Send (command_frame (device w) message); Ping; Terminate]).
  { intros message e.
    rewrite (sendWebsocketCommand_run message _ (logged e w) _ Hm Hp
               (getApiKey_cached (logged e w) Hkey)).
    change (sockets (logged (mkEntry DEBUG "getApiKey" NoPayload) (logged e w)))
      with (sockets w).
    rewrite Hsockets. cbn [hd].
    match goal with |- context [await_promise ?k ?m _ _ ?W] =>
      destruct (await_promise_resolves k m data doc pre rest W Hauth Hpre)
        as (w' & sent & -> & Hwire)
    end.
    eexists _, sent. split; [reflexivity|]. exact Hwire. }
  split.
  - destruct (Hsend (Obj [("doorCommand", Num (Int 1))])
                (mkEntry DEBUG "GARAGEDOOR openDoor" NoPayload)) as (w' & sent & Hrun & Hwire).
    exists w', sent. split; [|exact Hwire]. unfold openDoor. step.
    by rewrite Hrun.
  - destruct (Hsend (Obj [("doorCommand", Num (Int 0))])
                (mkEntry DEBUG "GARAGEDOOR closeDoor" NoPayload)) as (w' & sent & Hrun & Hwire).
    exists w', sent. split; [|exact Hwire]. unfold closeDoor. step.
    by rewrite Hrun.
Qed.

End Api.

(** ** The properties on the sample deployment *)

Module Examples.
Import Scenario.

(** C1 on a connection that opens, greets, authorizes, answers the ping
    and closes, and on one that closes after the greeting. *)
Lemma command_channel_protocol_witness :
  let w := world resolved [login_ok] [Open; greeting; authorization; Pong; Close] in
  (∃ w' sent,
     await_promise (Str "KEY1") open_command
       ([Open; greeting] ++ authorization :: Pong :: [Close])
       (mkChannel false Pending) w = (Return tt, w')
     ∧ wire w' = wire w ++ sent
                 ++ [Send (Obj [("jsonrpc", Str "2.0");
                                ("method", Str "gdoModuleCommand");
                                ("params",
                                 Obj [("msgType", Num (Int 16));
                                      ("moduleType", Num (Int 2));
                                      ("portId", Num (Int 5));
                                      ("moduleMsg", Obj [("doorCommand", Num (Int 1))]);
                                      ("topic", Str "abc123")])]);
                     Ping; Terminate]) ∧
  (∃ w',
     await_promise (Str "KEY1") open_command ([Open; greeting] ++ Close :: [Close])
       (mkChannel false Pending) w = (Throw ClosedPrematurely, w')) ∧
  (∃ w', sendWebsocketCommand Date_parse open_command w = (Return tt, w')).
Proof.
  intros w.
  pose proof (command_channel_protocol Date_parse (Str "KEY1") open_command "authorized"
                (Obj [("result", Obj [("authorized", Bool true)])])
                [Open; greeting] [Close] false Pending w eq_refl eq_refl) as H.
  cbn zeta in H. destruct H as (_ & _ & _ & _ & _ & Hpong & Hclose & Hsend).
  split; [exact Hpong|]. split; [exact Hclose|].
  apply (Hsend (snd (getApiKey Date_parse w)) []).
  - reflexivity.
  - reflexivity.
  - vm_compute. reflexivity.
  - vm_compute. reflexivity.
Defined.

(** C2 on the door opener that reports the state code 1. *)
Lemma getStatus_maps_state_code_witness :
  fst (getStatus Date_parse (world named [login_ok; device_list; status_open] []))
  = Return (Some OPEN).
Proof.
  rewrite (getStatus_maps_state_code Date_parse
             (world named [login_ok; device_list; status_open] [])
             (snd (updateDevice Date_parse
                     (logged (mkEntry DEBUG "Updating ryobi data" NoPayload)
                        (world named [login_ok; device_list; status_open] []))))
             (Int 1)).
  - reflexivity.
  - vm_compute. reflexivity.
  - vm_compute. reflexivity.
Defined.

(** C3 fails on a status document without [deviceTypeMap]: the call
    returns, so it has not failed with the protocol error, and the stamp
    is the old one, not the time of the call. *)
Lemma updateDevice_returns_without_stamp :
  let r := updateDevice Date_parse (world resolved [login_ok; status_no_map] []) in
  fst r = Return tt
  ∧ stateAsOf (device (snd r)) = Num (Int 1766999000000)
  ∧ now (snd r) = 1767000000180.
Proof. vm_compute. repeat split; reflexivity. Qed.

(** C3, amended, on a device without a door opener: the state code is
    unresolved and the stamp is the time of the call. *)
Lemma updateDevice_stamps_when_map_found_witness :
  let w' := snd (updateDevice Date_parse
                   (world named [login_ok; device_list; status_no_door] [])) in
  state (device w') = Undefined ∧
  ∃ values,
    last_document w' = Some values ∧
    (truthy (deviceTypeMap_of values) = true →
     stateAsOf (device w') = Num (Int (now w'))) ∧
    (truthy (deviceTypeMap_of values) = false →
     stateAsOf (device w') = stateAsOf named).
Proof.
  intros w'. split; [vm_compute; reflexivity|].
  apply (updateDevice_stamps_when_map_found Date_parse
           (world named [login_ok; device_list; status_no_door] []) w').
  vm_compute. reflexivity.
Defined.



(** C5 on a fresh session: the first call logs in and is given an expiry;
    a call before the expiry makes no request, a call at the expiry logs
    in again. *)
Lemma getApiKey_caches_until_expiry_witness :
  let w := world resolved [login_ok; login_ok] [] in
  let w1 := snd (getApiKey Date_parse w) in
  requests w1 = [login_request w]
  ∧ fst (getApiKey Date_parse (at_time 1767100000000 w1)) = Return (Str "KEY1")
  ∧ requests (snd (getApiKey Date_parse (at_time 1767100000000 w1)))
    = [login_request w]
  ∧ requests (snd (getApiKey Date_parse (at_time 1767225600000 w1)))
    = [login_request w; login_request w1].
Proof.
  intros w w1.
  apply (proj2 (getApiKey_caches_until_expiry Date_parse)
           w w1 (Str "KEY1") 1767225600000 1767100000000 1767225600000).
  - vm_compute. reflexivity.
  - vm_compute. reflexivity.
  - vm_compute. reflexivity.
  - lia.
Defined.

(** C6 fails on a login answer whose key is the empty string: the key is
    present and [result] is no string, yet the call throws. *)
Lemma getApiKey_rejects_empty_key :
  let result := Obj [("auth", Obj [("apiKey", Str "")])] in
  fst (getApiKey Date_parse (world resolved [login_empty_key] []))
  = Throw (Unauthorized "[object Object]")
  ∧ is_string result = false
  ∧ prop (prop result "auth") "apiKey" = Str "".
Proof. vm_compute. repeat split; reflexivity. Qed.

(** C6, amended, on the login answer [{result: 'invalid'}]. *)
Lemma getApiKey_login_outcome_witness :
  fst (getApiKey Date_parse (world resolved [login_invalid] []))
  = Throw (Unauthorized "invalid").
Proof.
  pose proof (getApiKey_login_outcome Date_parse (world resolved [login_invalid] [])
                120 [] "login" (Obj [("result", Str "invalid")])
                ltac:(vm_compute; reflexivity) ltac:(vm_compute; reflexivity) eq_refl)
    as H.
  cbn zeta in H. destruct H as (_ & Hunauthorized & _).
  apply Hunauthorized. split; [left|]; reflexivity.
Defined.

(** C7 on the sample device list: the hub and the door opener. *)
Lemma getDevices_maps_entries_witness :
  ∃ ds w',
    getDevices Date_parse (world named [login_ok; device_list] []) = (Return ds, w')
    ∧ List.map type ds = [Str "hub"; Str "gdo"]
    ∧ List.map description ds = [Str ""; Str ""]
    ∧ ∃ doc entries,
        last_document w' = Some doc ∧ prop doc "result" = Arr entries ∧
        Forall2 (fun entry d =>
          let or_empty v := match v with Undefined | Null => Str "" | _ => v end in
          id d = or_empty (prop entry "varName") ∧
          name d = or_empty (prop (prop entry "metaData") "name") ∧
          description d = or_empty (prop (prop entry "metaData") "description") ∧
          model d = or_empty (prop (prop entry "deviceTypeIds") "0") ∧
          (∃ text, to_string (model d) = Some text
             ∧ (type d = Str "hub" ∧ mentions_hub text
                ∨ type d = Str "gdo" ∧ ¬ mentions_hub text)) ∧
          Forall (fun field => nullish field = false)
                 [id d; name d; description d; model d; type d])
          entries ds.
Proof.
  eexists _, _. split; [vm_compute; reflexivity|].
  split; [reflexivity|]. split; [reflexivity|].
  eapply (getDevices_maps_entries Date_parse (world named [login_ok; device_list] [])).
  vm_compute. reflexivity.
Defined.

(** C8 on two headers that set the same cookie, one with an expiry. *)
Lemma updateSessionFromCookies_idempotent_witness :
  let headers := ["sid=one; Expires=Thu, 01 Jan 2026 00:00:00 GMT";
                  "sid=two; Path=/"; "theme=dark"] in
  updateSessionFromCookies Date_parse
    (updateSessionFromCookies Date_parse fresh headers) headers
  = updateSessionFromCookies Date_parse fresh headers.
Proof.
  intros headers.
  exact (updateSessionFromCookies_idempotent Date_parse fresh headers).
Defined.

(** C9 on a rejected login: [openDoor] returns, the error is in the log. *)
Lemma openDoor_closeDoor_swallow_errors_witness :
  let r := openDoor Date_parse (world named [login_invalid] []) in
  fst r = Return tt
  ∧ last (log (snd r))
    = Some (mkEntry ERROR "Error sending openDoor command: "
              (OfError (Unauthorized "invalid"))).
Proof.
  destruct (openDoor_closeDoor_swallow_errors Date_parse
              (world named [login_invalid] [])) as (_ & _ & Hopen & _).
  rewrite (Hopen (Unauthorized "invalid")
             (snd (sendWebsocketCommand Date_parse open_command
                     (logged (mkEntry DEBUG "GARAGEDOOR openDoor" NoPayload)
                        (world named [login_invalid] []))))).
  - cbn zeta. split; [reflexivity|]. vm_compute. reflexivity.
  - vm_compute. reflexivity.
Defined.

(** C10 on a door opener whose module identifier resolves to the number
    0: both identifiers are numbers and the command throws. *)
Lemma sendWebsocketCommand_rejects_zero_witness :
  let w := world named [login_ok; device_list; status_module_zero] [] in
  let w1 := snd (resolve_addressing Date_parse w) in
  moduleId (device w1) = Num (Int 0)
  ∧ portId (device w1) = Num (Int 5)
  ∧ sendWebsocketCommand Date_parse open_command w = (Throw ModuleIdUndefined, w1).
Proof.
  intros w w1. split; [vm_compute; reflexivity|]. split; [vm_compute; reflexivity|].
  apply (sendWebsocketCommand_rejects_zero Date_parse open_command w w1).
  - vm_compute. reflexivity.
  - left. vm_compute. reflexivity.
Defined.

(** The scenarios of the specification. *)

(** A device known by name is resolved and reported open. *)
Example end_to_end :
  let r := getStatus Date_parse (world named [login_ok; device_list; status_open] []) in
  fst r = Return (Some OPEN)
  ∧ id (device (snd r)) = Str "abc123"
  ∧ portId (device (snd r)) = Num (Int 5)
  ∧ moduleId (device (snd r)) = Num (Int 2)
  ∧ state (device (snd r)) = Num (Int 1).
Proof. vm_compute. repeat split; reflexivity. Qed.

(** The open-door command on a connection that authorizes and answers the
    ping, and on one that closes first. *)
Example open_door_resolves :
  let r := openDoor Date_parse
             (world named [login_ok; device_list; status_open]
                    [Open; greeting; authorization; Pong; Close]) in
  fst r = Return tt
  ∧ last (log (snd r)) = Some (mkEntry DEBUG "command finished" NoPayload)
  ∧ last (wire (snd r)) = Some Terminate.
Proof. vm_compute. repeat split; reflexivity. Qed.

Example open_door_closed_early :
  fst (sendWebsocketCommand Date_parse open_command
         (world named [login_ok; device_list; status_open] [Open; greeting; Close]))
  = Throw ClosedPrematurely.
Proof. vm_compute. reflexivity. Qed.

(** The set-cookie patterns. *)
Example cookie_patterns :
  Regex.match_pair "sid=s3cr3t; Path=/; Expires=Thu, 01 Jan 2026 00:00:00 GMT"
    = Some ("sid", "s3cr3t")
  ∧ Regex.match_expires "sid=s3cr3t; Path=/; EXPIRES = Thu, 01 Jan 2026 00:00:00 GMT; x"
    = Some "Thu, 01 Jan 2026 00:00:00 GMT"
  ∧ Regex.match_expires "sid=s3cr3t; Path=/" = None
  ∧ Regex.match_pair "a=;b=c" = Some (";b", "c")
  ∧ Regex.test_hub "wgd1234hub" = true
  ∧ Regex.test_hub "wgd1234" = false.
Proof. vm_compute. repeat split; reflexivity. Qed.

(** String conversions: an object converts unless it has a [toString]
    property of its own, and an array as its elements do; an answer of the
    service whose [result], or whose first device type, does not convert
    makes the call throw the TypeError of the conversion. *)
Example string_conversions :
  let odd := Obj [("toString", Num (Int 1))] in
  let answer body := Response 80 [] "odd" (Some (Obj [("result", body)])) in
  to_string (Obj [("valueOf", Num (Int 1))]) = Some "[object Object]"
  ∧ to_string odd = None
  ∧ to_string (Arr [Str "a"; Null; Arr [Num (Int 1); Num (Int (-2))]; Bool true])
    = Some "a,,1,-2,true"
  ∧ to_string (Arr [Str "a"; odd]) = None
  ∧ fst (getApiKey Date_parse (world resolved [answer odd] [])) = Throw CannotConvert
  ∧ fst (getDevicesRaw Date_parse (signed_in_world named [answer odd] []))
    = Throw CannotConvert
  ∧ fst (getDevices Date_parse
           (signed_in_world named
              [answer (Arr [Obj [("deviceTypeIds", Arr [odd])]])] []))
    = Throw CannotConvert
  ∧ updateDevice Date_parse
      (signed_in_world (mkDevice Undefined Undefined odd Undefined Undefined
                                 Undefined Undefined Undefined Undefined)
                       [status_open] [])
    = (Throw CannotConvert,
       signed_in_world (mkDevice Undefined Undefined odd Undefined Undefined
                                 Undefined Undefined Undefined Undefined)
                       [status_open] []).
Proof. vm_compute. repeat split; reflexivity. Qed.

(** *** The further properties on the sample deployment *)

(** X1 on a session cookie with a path. *)
Lemma match_pair_sound_witness :
  Forall (fun c => c ≠ "="%char) (list_ascii_of_string "sid")
  ∧ Forall (fun c => c ≠ ";"%char) (list_ascii_of_string "s3cr3t").
Proof.
  destruct (match_pair_sound "sid=s3cr3t; Path=/" "sid" "s3cr3t" eq_refl)
    as (_ & _ & Hname & Hvalue & _).
  split; [exact Hname|exact Hvalue].
Defined.

(** X2 on three headers, two of which set the same cookie. *)
Lemma updateSessionFromCookies_last_write_wins_witness :
  cookies (updateSessionFromCookies Date_parse fresh
             (["sid=one"] ++ "sid=two; Path=/" :: ["theme=dark"])) !! "sid"
  = Some "two".
Proof.
  apply (updateSessionFromCookies_last_write_wins Date_parse fresh
           ["sid=one"] ["theme=dark"] "sid=two; Path=/" "sid" "two").
  - reflexivity.
  - repeat constructor. intros v H. vm_compute in H. discriminate.
Defined.

(** X3 on a session that holds a cookie the header does not name. *)
Lemma updateSessionFromCookies_only_adds_witness :
  let s := mkSession {[ "sid" := "one" ]} (Str "KEY1") None in
  cookies (updateSessionFromCookies Date_parse s ["theme=dark"]) !! "sid"
  = cookies s !! "sid".
Proof.
  intros s.
  apply (proj1 (proj2 (updateSessionFromCookies_only_adds Date_parse s ["theme=dark"]))).
  repeat constructor. intros v H. vm_compute in H. discriminate.
Defined.

(** X4 on a header with an expiry followed by one without. *)
Lemma updateSessionFromCookies_last_expiry_wins_witness :
  cookieExpires (updateSessionFromCookies Date_parse fresh
                   ([] ++ "sid=one; Expires=Thu, 01 Jan 2026 00:00:00 GMT"
                       :: ["sid=two; Path=/"]))
  = Some (Date_parse "Thu, 01 Jan 2026 00:00:00 GMT").
Proof.
  apply (proj1 (updateSessionFromCookies_last_expiry_wins Date_parse fresh)
           [] ["sid=two; Path=/"] "sid=one; Expires=Thu, 01 Jan 2026 00:00:00 GMT"
           "Thu, 01 Jan 2026 00:00:00 GMT").
  - reflexivity.
  - repeat constructor.
Defined.

(** X5 on a session cookie with attributes. *)
Lemma updateSessionFromCookies_stores_pair_witness :
  cookies (updateSessionFromCookies Date_parse fresh
             ([] ++ ["sid" +:+ "=" +:+ "s3cr3t"
                     +:+ "; Path=/; Expires=Thu, 01 Jan 2026 00:00:00 GMT"])) !! "sid"
  = Some "s3cr3t".
Proof.
  apply (updateSessionFromCookies_stores_pair Date_parse fresh [] "sid" "s3cr3t"
           "; Path=/; Expires=Thu, 01 Jan 2026 00:00:00 GMT").
  - discriminate.
  - discriminate.
  - repeat constructor; discriminate.
  - repeat constructor; discriminate.
  - right. eexists. reflexivity.
Defined.

(** X6 on the login followed by the device list. *)
Lemma getJson_sends_merged_cookies_witness :
  let w := world named [login_ok; device_list] [] in
  requests (snd (getJson Date_parse deviceURL Get
                   (snd (getJson Date_parse apikeyURL Get w))))
  = requests w
    ++ [mkRequest apikeyURL Get (cookies (session w));
        mkRequest deviceURL Get
          (merged_jar
             ["sid=s3cr3t; Path=/; Expires=Thu, 01 Jan 2026 00:00:00 GMT; HttpOnly"]
             (cookies (session w)))].
Proof.
  intros w.
  apply (proj1 (getJson_sends_merged_cookies Date_parse apikeyURL deviceURL Get Get w)
           120%N
           ["sid=s3cr3t; Path=/; Expires=Thu, 01 Jan 2026 00:00:00 GMT; HttpOnly"]
           "login"
           (Some (Obj [("result", Obj [("auth", Obj [("apiKey", Str "KEY1")])])]))).
  reflexivity.
Defined.

(** X8 on a server that cannot be reached. *)
Lemma getApiKey_login_failures_witness :
  fst (getApiKey Date_parse (world resolved [] [])) = Throw (FetchError "ECONNREFUSED").
Proof.
  apply (proj1 (getApiKey_login_failures Date_parse (world resolved [] []) eq_refl)).
  reflexivity.
Defined.

(** X9 on a server whose cookie has no expiry: two calls, two logins. *)
Lemma getApiKey_needs_expiry_witness :
  let w := world resolved [login_session_cookie; login_session_cookie] [] in
  let w1 := snd (getApiKey Date_parse w) in
  requests (snd (getApiKey Date_parse w1)) = requests w ++ [login_request w; login_request w1].
Proof.
  intros w w1.
  apply (proj2 (getApiKey_needs_expiry Date_parse w)).
  - reflexivity.
  - intros dt cs body js H. vm_compute in H. injection H as _ <- _ _.
    repeat constructor.
Defined.

(** X10 on the refusal of the service. *)
Lemma getDevicesRaw_outcome_witness :
  fst (getDevicesRaw Date_parse (signed_in_world named [refused] []))
  = Throw (Unauthorized "Unauthorized").
Proof.
  apply (getDevicesRaw_outcome Date_parse (signed_in_world named [refused] [])
           60%N [] "refused" (Obj [("result", Str "Unauthorized")])).
  - reflexivity.
  - reflexivity.
Defined.

(** X11 on the device named MyGDO, listed after the hub. *)
Lemma getDeviceId_by_name_witness :
  let w := world named [login_ok; device_list] [] in
  let entries := elements (prop (document device_list) "result") in
  let ds := [listed_as (nth 0 entries Null) "wgd1234hub";
             listed_as (nth 1 entries Null) "wgd1234"] in
  device (snd (getDeviceId Date_parse w)) = Object_assign named (nth_error ds 1).
Proof.
  intros w entries ds.
  apply (proj1 (getDeviceId_by_name Date_parse w
                  (snd (getDevices Date_parse
                          (logged (mkEntry DEBUG "getDeviceId" NoPayload) w)))
                  ds eq_refl eq_refl ltac:(vm_compute; reflexivity))
           [nth 0 ds unknown] (nth 1 ds unknown) []).
  - reflexivity.
  - repeat constructor.
  - reflexivity.
Defined.

(** X12 on a device known by nothing: the hub is passed over. *)
Lemma getDeviceId_first_door_opener_witness :
  let w := world unknown [login_ok; device_list] [] in
  id (device (snd (getDeviceId Date_parse w))) = Str "abc123".
Proof.
  intros w.
  set (entries := elements (prop (document device_list) "result")).
  set (ds := [listed_as (nth 0 entries Null) "wgd1234hub";
              listed_as (nth 1 entries Null) "wgd1234"]).
  rewrite (proj1 (getDeviceId_first_door_opener Date_parse w
                    (snd (getDevices Date_parse
                            (logged (mkEntry DEBUG "getDeviceId" NoPayload) w)))
                    ds eq_refl eq_refl ltac:(vm_compute; reflexivity))
             [nth 0 ds unknown] (nth 1 ds unknown) []).
  - reflexivity.
  - reflexivity.
  - repeat constructor.
  - vm_compute. discriminate.
Defined.

(** X13 on a device whose name is not in the list: the status request
    goes to the url that ends in undefined. *)
Lemma updateDevice_status_request_witness :
  let nobody := mkDevice Undefined (Str "Nobody") Undefined Undefined Undefined
                         Undefined Undefined Undefined Undefined in
  let w := world nobody [login_ok; device_list; status_open] [] in
  url <$> last (requests (snd (updateDevice Date_parse w)))
  = Some "https://tti.tiwiconnect.com/api/devices/undefined".
Proof.
  intros nobody w.
  rewrite (proj1 (proj2 (updateDevice_status_request Date_parse w
                           (snd (getApiKey Date_parse (snd (getDeviceId Date_parse w))))
                           (Str "KEY1")))
             (snd (getDeviceId Date_parse w))).
  - vm_compute. reflexivity.
  - reflexivity.
  - vm_compute. reflexivity.
  - vm_compute. reflexivity.
  - vm_compute. reflexivity.
Defined.

(** X14 on a status answer with an empty result. *)
Lemma updateDevice_invalid_response_witness :
  let w := signed_in_world resolved [status_empty] [] in
  fst (updateDevice Date_parse w) = Throw (InvalidResponse (document status_empty))
  ∧ device (snd (updateDevice Date_parse w)) = resolved.
Proof.
  intros w.
  destruct (updateDevice_invalid_response Date_parse w
              (snd (getApiKey Date_parse w))
              (snd (getJson Date_parse "https://tti.tiwiconnect.com/api/devices/abc123" Get
                      (snd (getApiKey Date_parse w))))
              (Str "KEY1") (document status_empty) "abc123"
              eq_refl eq_refl ltac:(vm_compute; reflexivity) ltac:(vm_compute; reflexivity))
    as [Hthrows Hdevice].
  split; [apply Hthrows; reflexivity|apply Hdevice; reflexivity].
Defined.

(** X15 on the refusal of the service as a status answer. *)
Lemma updateDevice_string_result_witness :
  let w := signed_in_world resolved [refused] [] in
  fst (updateDevice Date_parse w) = Return tt
  ∧ device (snd (updateDevice Date_parse w)) = resolved.
Proof.
  intros w.
  destruct (updateDevice_string_result Date_parse w
              (snd (getApiKey Date_parse w))
              (snd (getJson Date_parse "https://tti.tiwiconnect.com/api/devices/abc123" Get
                      (snd (getApiKey Date_parse w))))
              (Str "KEY1") (document refused) "abc123" "Unauthorized"
              eq_refl eq_refl ltac:(vm_compute; reflexivity) ltac:(vm_compute; reflexivity)
              eq_refl ltac:(discriminate))
    as [Hrun Hdevice].
  rewrite Hrun. split; [reflexivity|exact Hdevice].
Defined.

(** X16 on a device without a door opener. *)
Lemma updateDevice_without_door_module_witness :
  let w := signed_in_world resolved [status_no_door] [] in
  let d' := device (snd (updateDevice Date_parse w)) in
  moduleId d' = Undefined ∧ portId d' = Undefined ∧ state d' = Undefined.
Proof.
  intros w d'.
  destruct (updateDevice_without_door_module Date_parse w
              (snd (getApiKey Date_parse w))
              (snd (getJson Date_parse "https://tti.tiwiconnect.com/api/devices/abc123" Get
                      (snd (getApiKey Date_parse w))))
              (Str "KEY1") (document status_no_door) "abc123"
              eq_refl eq_refl ltac:(vm_compute; reflexivity) ltac:(vm_compute; reflexivity)
              eq_refl eq_refl ltac:(repeat constructor))
    as (_ & Hmodule & Hport & _ & Hstate & _).
  split; [exact Hmodule|]. split; [exact Hport|]. apply Hstate. reflexivity.
Defined.

(** X17 on the sample door opener, listed after the wifi module. *)
Lemma updateDevice_first_door_module_witness :
  let w := signed_in_world resolved [status_open] [] in
  let d' := device (snd (updateDevice Date_parse w)) in
  portId d' = Num (Int 5) ∧ moduleId d' = Num (Int 2).
Proof.
  intros w d'.
  set (modules := object_values (deviceTypeMap_of (document status_open))).
  destruct (updateDevice_first_door_module Date_parse w
              (snd (getApiKey Date_parse w))
              (snd (getJson Date_parse "https://tti.tiwiconnect.com/api/devices/abc123" Get
                      (snd (getApiKey Date_parse w))))
              (Str "KEY1") (document status_open) "abc123"
              [nth 0 modules Undefined] [] (nth 1 modules Undefined)
              eq_refl eq_refl ltac:(vm_compute; reflexivity) ltac:(vm_compute; reflexivity)
              eq_refl eq_refl eq_refl ltac:(repeat constructor) eq_refl)
    as (_ & Hport & Hmodule & _).
  split; [exact Hport|exact Hmodule].
Defined.

(** X18 on a device resolved earlier as open, when the status answer
    holds no map. *)
Lemma getStatus_answers_from_earlier_state_witness :
  fst (getStatus Date_parse (signed_in_world resolved [status_no_map] []))
  = Return (Some OPEN).
Proof.
  rewrite (getStatus_answers_from_earlier_state Date_parse
             (signed_in_world resolved [status_no_map] [])
             (snd (updateDevice Date_parse
                     (logged (mkEntry DEBUG "Updating ryobi data" NoPayload)
                        (signed_in_world resolved [status_no_map] []))))
             (document status_no_map) (Int 1)).
  - reflexivity.
  - vm_compute. reflexivity.
  - vm_compute. reflexivity.
  - reflexivity.
  - reflexivity.
Defined.

(** X20 on a connection that greets and answers a ping nobody sent. *)
Lemma await_promise_no_command_unauthorized_witness :
  let w := signed_in_world resolved [] [] in
  ∃ sent,
    wire (snd (await_promise (Str "KEY1") open_command [Open; greeting; Pong]
                 (mkChannel false Pending) w)) = wire w ++ sent
    ∧ Forall (fun a => a ≠ Ping ∧ a ≠ Send (command_frame (device w) open_command)
                       ∧ (a = Send (login_frame (credentials w) (Str "KEY1"))
                          ∨ a = Terminate))
             sent.
Proof.
  intros w.
  apply (await_promise_no_command_unauthorized (Str "KEY1") open_command
           [Open; greeting; Pong] (mkChannel false Pending) w).
  reflexivity.
Defined.

(** X21 on the same connection: the operation returns. *)
Lemma await_promise_pong_without_command_witness :
  let w := signed_in_world resolved [] [] in
  ∃ w' sent,
    await_promise (Str "KEY1") open_command ([Open; greeting] ++ Pong :: [])
      (mkChannel false Pending) w = (Return tt, w')
    ∧ wire w' = wire w ++ sent
    ∧ Forall (fun a => a = Send (login_frame (credentials w) (Str "KEY1"))
                       ∨ a = Terminate) sent.
Proof.
  intros w.
  apply (await_promise_pong_without_command (Str "KEY1") open_command
           [Open; greeting] [] w).
  reflexivity.
Defined.

(** X22 on a reset before and after the command. *)
Lemma await_promise_error_rejects_witness :
  let w := signed_in_world resolved [] [] in
  (∃ w', await_promise (Str "KEY1") open_command ([Open] ++ Error "ECONNRESET" :: [])
           (mkChannel false Pending) w
         = (Throw (WebSocketError "ECONNRESET"), w')) ∧
  (∃ w', await_promise (Str "KEY1") open_command
           ([Open] ++ Message "authorized"
                        (Some (Obj [("result", Obj [("authorized", Bool true)])]))
                   :: Error "ECONNRESET" :: [])
           (mkChannel false Pending) w
         = (Throw (WebSocketError "ECONNRESET"), w')
       ∧ In (Send (command_frame (device w) open_command)) (wire w')).
Proof.
  intros w.
  apply (await_promise_error_rejects (Str "KEY1") open_command "authorized"
           (Obj [("result", Obj [("authorized", Bool true)])]) [Open] []
           "ECONNRESET" w).
  - reflexivity.
  - reflexivity.
Defined.

(** X23 on a connection that closes after the command. *)
Lemma await_promise_close_after_command_witness :
  fst (await_promise (Str "KEY1") open_command
         ([Open] ++ Message "authorized"
                      (Some (Obj [("result", Obj [("authorized", Bool true)])]))
                 :: [Close])
         (mkChannel false Pending) (signed_in_world resolved [] [])) = Never.
Proof.
  apply (await_promise_close_after_command (Str "KEY1") open_command "authorized"
           (Obj [("result", Obj [("authorized", Bool true)])]) [Open] [Close]
           (signed_in_world resolved [] [])).
  - reflexivity.
  - reflexivity.
  - reflexivity.
Defined.

(** X24 on a service that authorizes twice. *)
Lemma await_promise_repeats_command_witness :
  let w := signed_in_world resolved [] [] in
  let yes := Obj [("result", Obj [("authorized", Bool true)])] in
  ∃ w' sent,
    await_promise (Str "KEY1") open_command
      ([Open] ++ Message "one" (Some yes) :: Message "two" (Some yes) :: Pong :: [])
      (mkChannel false Pending) w = (Return tt, w')
    ∧ wire w' = wire w ++ sent
                ++ [Send (command_frame (device w) open_command); Ping;
                    Send (command_frame (device w) open_command); Ping; Terminate].
Proof.
  intros w yes.
  apply (await_promise_repeats_command (Str "KEY1") open_command "one" "two" yes yes
           [Open] [] w).
  - reflexivity.
  - reflexivity.
  - reflexivity.
Defined.

(** X25 on a resolved device under a cached key. *)
Lemma sendWebsocketCommand_without_http_witness :
  let w := signed_in_world resolved [] [Open; authorization; Pong] in
  let w' := snd (sendWebsocketCommand Date_parse open_command w) in
  requests w' = requests w ∧ session w' = session w ∧ device w' = device w.
Proof.
  intros w.
  apply (sendWebsocketCommand_without_http Date_parse open_command w).
  - reflexivity.
  - reflexivity.
  - reflexivity.
Defined.

(** X26 on a login that is refused: nothing reaches the socket. *)
Lemma sendWebsocketCommand_unaddressed_witness :
  let w := world named [login_invalid] [Open; authorization; Pong] in
  sockets (snd (sendWebsocketCommand Date_parse open_command w)) = sockets w
  ∧ wire (snd (sendWebsocketCommand Date_parse open_command w)) = [].
Proof.
  intros w.
  destruct (sendWebsocketCommand_unaddressed Date_parse open_command w)
    as (-> & _ & Hsockets & Hwire).
  - left. intros H. vm_compute in H. discriminate.
  - split; [exact Hsockets|exact Hwire].
Defined.

(** X27 on the sample connection. *)
Lemma openDoor_closeDoor_frames_witness :
  let w := signed_in_world resolved []
             ([Open; greeting] ++ authorization :: Pong :: [Close]) in
  let command (doorCommand : Z) :=
    Obj [("jsonrpc", Str "2.0"); ("method", Str "gdoModuleCommand");
         ("params", Obj [("msgType", Num (Int 16)); ("moduleType", Num (Int 2));
                         ("portId", Num (Int 5));
                         ("moduleMsg", Obj [("doorCommand", Num (Int doorCommand))]);
                         ("topic", Str "abc123")])] in
  (∃ w' sent,
     openDoor Date_parse w = (Return tt, w')
     ∧ wire w' = wire w ++ sent ++ [Send (command 1); Ping; Terminate]) ∧
  (∃ w' sent,
     closeDoor Date_parse w = (Return tt, w')
     ∧ wire w' = wire w ++ sent ++ [Send (command 0); Ping; Terminate]).
Proof.
  intros w command.
  apply (openDoor_closeDoor_frames Date_parse "authorized"
           (Obj [("result", Obj [("authorized", Bool true)])])
           [Open; greeting] [Close] [] w).
  - reflexivity.
  - reflexivity.
  - reflexivity.
  - reflexivity.
  - reflexivity.
  - reflexivity.
Defined.

End Examples.
